(** * lightsc.py: the lightsd JSON-RPC example client

    A shallow embedding of [examples/lightsc.py] (class [LightsClient]) and
    the properties of its transport, batching and command wrappers.

    Layout:
    - Python values and the few built-in operations the client uses;
    - the library functions the client calls: [bytes.decode("utf-8")],
      [json.loads], [uuid.uuid4] and [str] of a UUID;
    - the world the client runs in (socket, entropy, standard output, the
      response lists handed out by [batch]) and a state/exception monad;
    - [LightsClient] itself, method by method;
    - the vocabulary of the statements, sample worlds, and the statements
      of the specification that the code is tested against;
    - lemmas and theorems.

    What the model abstracts:
    - the network is a script: for each exchange, whether [send] fails,
      [recv] fails, or which octets [recv] finds; when the script is over
      the peer is silent and [recv] blocks for ever;
    - [json.dumps] is not modelled: the socket logs the payload whose image
      is sent (every value of the model has one);
    - [uuid.uuid4] reads its 16 random octets from a sequence of draws that
      the world supplies;
    - [close], the [with] protocol of the client itself, the interactive
      shell and the command line are left out. *)

From Stdlib Require Import ZArith NArith List String Ascii Bool Lia.
From Stdlib Require Import PrimFloat SpecFloat FloatOps FloatAxioms.
Import ListNotations.

Set Warnings "-register-all,-inexact-float,-abstract-large-number".
Open Scope float_scope.
Open Scope Z_scope.

(* ================================================================== *)
(** * Text and bytes *)

(** A Python [str] is a sequence of Unicode code points, a [bytes] object a
    sequence of octets.  Both are lists of [N]; the aliases say which. *)
Definition pystr := list N.
Definition bytes := list N.

(** ASCII literals: each character of the Rocq string is one code point
    (resp. one octet). *)
Definition u (s : string) : pystr :=
  map N_of_ascii (list_ascii_of_string s).

(** JSON literals for examples, written with apostrophes where the wire has
    double quotes (code 39 becomes code 34). *)
Definition js (s : string) : bytes :=
  map (fun c => if N.eqb c 39 then 34%N else c) (u s).

Definition pystr_eqb (a b : pystr) : bool :=
  if list_eq_dec N.eq_dec a b then true else false.

(** ** [bytes.decode("utf-8")], strict error handling *)

Definition is_cont (b : N) : bool := N.leb 128 b && N.leb b 191.

Definition cont_bits (b : N) : N := N.land b 63.

(** Shortest-form, no surrogates, at most U+10FFFF; [None] stands for
    [UnicodeDecodeError]. *)
Fixpoint utf8_decode (bs : bytes) : option pystr :=
  match bs with
  | [] => Some []
  | b0 :: r0 =>
    if N.ltb b0 128 then option_map (cons b0) (utf8_decode r0)
    else if N.leb 192 b0 && N.leb b0 223 then
      match r0 with
      | b1 :: r1 =>
        let cp := N.lor (N.shiftl (N.land b0 31) 6) (cont_bits b1) in
        if is_cont b1 && N.leb 128 cp
        then option_map (cons cp) (utf8_decode r1) else None
      | _ => None
      end
    else if N.leb 224 b0 && N.leb b0 239 then
      match r0 with
      | b1 :: b2 :: r2 =>
        let cp := N.lor (N.shiftl (N.land b0 15) 12)
                   (N.lor (N.shiftl (cont_bits b1) 6) (cont_bits b2)) in
        if is_cont b1 && is_cont b2 && N.leb 2048 cp
           && negb (N.leb 55296 cp && N.leb cp 57343)
        then option_map (cons cp) (utf8_decode r2) else None
      | _ => None
      end
    else if N.leb 240 b0 && N.leb b0 244 then
      match r0 with
      | b1 :: b2 :: b3 :: r3 =>
        let cp := N.lor (N.shiftl (N.land b0 7) 18)
                   (N.lor (N.shiftl (cont_bits b1) 12)
                     (N.lor (N.shiftl (cont_bits b2) 6) (cont_bits b3))) in
        if is_cont b1 && is_cont b2 && is_cont b3
           && N.leb 65536 cp && N.leb cp 1114111
        then option_map (cons cp) (utf8_decode r3) else None
      | _ => None
      end
    else None
  end.

(* ================================================================== *)
(** * Python values *)

(** The values that travel through the client: what [json.loads] can build
    and what a caller passes as parameters.  A [dict] keeps insertion order
    and has string keys. *)
Inductive value : Type :=
| VNone
| VBool (b : bool)
| VInt (z : Z)
| VFloat (f : float)
| VStr (s : pystr)
| VList (l : list value)
| VDict (d : list (pystr * value)).

(** The exceptions that can escape the client. *)
Inductive exn : Type :=
| KeyError
| TypeError
| ValueError
| OverflowError
| UnicodeDecodeError
| OSError.

Inductive result (A : Type) : Type :=
| Ok (a : A)
| Err (e : exn).
Arguments Ok {A} a.
Arguments Err {A} e.

(** ** Dictionaries *)

Fixpoint dict_get (k : pystr) (d : list (pystr * value)) : option value :=
  match d with
  | [] => None
  | (k', v) :: d' => if pystr_eqb k k' then Some v else dict_get k d'
  end.

(** [d[k] = v]: an existing key keeps its position. *)
Fixpoint dict_set (k : pystr) (v : value) (d : list (pystr * value))
  : list (pystr * value) :=
  match d with
  | [] => [(k, v)]
  | (k', v') :: d' =>
    if pystr_eqb k k' then (k', v) :: d' else (k', v') :: dict_set k v d'
  end.

(** ** Subscription, iteration, unpacking *)

(** [v[k]] for a string key [k]. *)
Definition getitem (v : value) (k : pystr) : result value :=
  match v with
  | VDict d => match dict_get k d with Some x => Ok x | None => Err KeyError end
  | _ => Err TypeError
  end.

(** [iter(v)] run to the end. *)
Definition py_iter (v : value) : result (list value) :=
  match v with
  | VList l => Ok l
  | VStr s => Ok (map (fun c => VStr [c]) s)
  | VDict d => Ok (map (fun kv => VStr (fst kv)) d)
  | _ => Err TypeError
  end.

(** [a, b, c, d = v]. *)
Definition unpack4 (v : value) : result (value * value * value * value) :=
  match py_iter v with
  | Ok [a; b; c; d] => Ok (a, b, c, d)
  | Ok _ => Err ValueError
  | Err e => Err e
  end.

(** ** Numbers *)

(** [float(z)] for an [int]: round to nearest even, [OverflowError] when the
    integer is out of the binary64 range. *)
Definition float_of_int (z : Z) : result float :=
  match binary_normalize prec emax z 0 false with
  | S754_infinity _ => Err OverflowError
  | sf => Ok (SF2Prim sf)
  end.

(** Exact comparison of a float with an integer, as CPython does it:
    [float_cmp_int f z] is [Some c] with [c] the comparison of [f] with [z],
    [None] when [f] is a NaN. *)
Definition float_cmp_int (f : float) (z : Z) : option comparison :=
  match Prim2SF f with
  | S754_nan => None
  | S754_infinity s => Some (if s then Lt else Gt)
  | S754_zero _ => Some (Z.compare 0 z)
  | S754_finite s m e =>
    let sm := if s then Z.neg m else Z.pos m in
    Some (match e with
          | Z.neg p => Z.compare sm (z * Z.pow 2 (Z.pos p))
          | _ => Z.compare (sm * Z.pow 2 e) z
          end)
  end.

Definition int_of_bool (b : bool) : Z := if b then 1%Z else 0%Z.

(** [f < v] with a float on the left. *)
Definition float_lt (f : float) (v : value) : result bool :=
  match v with
  | VFloat g => Ok (PrimFloat.ltb f g)
  | VInt z =>
    Ok (match float_cmp_int f z with Some Lt => true | _ => false end)
  | VBool b =>
    Ok (match float_cmp_int f (int_of_bool b) with
        | Some Lt => true | _ => false end)
  | _ => Err TypeError
  end.

(** [f > v] with a float on the left. *)
Definition float_gt (f : float) (v : value) : result bool :=
  match v with
  | VFloat g => Ok (PrimFloat.ltb g f)
  | VInt z =>
    Ok (match float_cmp_int f z with Some Gt => true | _ => false end)
  | VBool b =>
    Ok (match float_cmp_int f (int_of_bool b) with
        | Some Gt => true | _ => false end)
  | _ => Err TypeError
  end.

Definition add_int_float (z : Z) (f : float) (swap : bool) : result value :=
  match float_of_int z with
  | Ok g => Ok (VFloat (if swap then PrimFloat.add f g else PrimFloat.add g f))
  | Err e => Err e
  end.

(** [a + b]. *)
Definition py_add (a b : value) : result value :=
  match a, b with
  | VInt x, VInt y => Ok (VInt (x + y))
  | VInt x, VBool y => Ok (VInt (x + int_of_bool y))
  | VBool x, VInt y => Ok (VInt (int_of_bool x + y))
  | VBool x, VBool y => Ok (VInt (int_of_bool x + int_of_bool y))
  | VFloat x, VFloat y => Ok (VFloat (PrimFloat.add x y))
  | VInt x, VFloat y => add_int_float x y false
  | VBool x, VFloat y => add_int_float (int_of_bool x) y false
  | VFloat x, VInt y => add_int_float y x true
  | VFloat x, VBool y => add_int_float (int_of_bool y) x true
  | VStr x, VStr y => Ok (VStr (x ++ y))
  | VList x, VList y => Ok (VList (x ++ y))
  | _, _ => Err TypeError
  end.

(** [min(x, c)] for a float [c]: the first argument unless [c < x]. *)
Definition py_min (x : value) (c : float) : result value :=
  match float_lt c x with
  | Ok true => Ok (VFloat c)
  | Ok false => Ok x
  | Err e => Err e
  end.

(** [max(y, c)] for a float [c]: the first argument unless [c > y]. *)
Definition py_max (y : value) (c : float) : result value :=
  match float_gt c y with
  | Ok true => Ok (VFloat c)
  | Ok false => Ok y
  | Err e => Err e
  end.


(* ================================================================== *)
(** * [json.loads] *)

(** The decoder of Python's [json] module on a [str], default options:
    [None] stands for [json.JSONDecodeError].  Integers have arbitrary
    precision; a number with a fraction or an exponent is the nearest
    binary64 float; [NaN], [Infinity] and [-Infinity] are accepted;
    a repeated key keeps its last value.  (The interpreter's recursion limit
    and its limit on the digits of an integer are not modelled.) *)

Definition is_ws (c : N) : bool :=
  N.eqb c 32 || N.eqb c 9 || N.eqb c 10 || N.eqb c 13.

Fixpoint skip_ws (s : pystr) : pystr :=
  match s with
  | c :: r => if is_ws c then skip_ws r else s
  | [] => []
  end.

Definition is_digit (c : N) : bool := N.leb 48 c && N.leb c 57.

Definition hexval (c : N) : option N :=
  if is_digit c then Some (c - 48)%N
  else if N.leb 97 c && N.leb c 102 then Some (c - 87)%N
  else if N.leb 65 c && N.leb c 70 then Some (c - 55)%N
  else None.

Definition hex4 (a b c d : N) : option N :=
  match hexval a, hexval b, hexval c, hexval d with
  | Some x, Some y, Some z, Some w => Some (((x * 16 + y) * 16 + z) * 16 + w)%N
  | _, _, _, _ => None
  end.

(** The character after a backslash, other than [u]. *)
Definition unescape (c : N) : option N :=
  if N.eqb c 34 then Some 34%N            (* quote *)
  else if N.eqb c 92 then Some 92%N       (* backslash *)
  else if N.eqb c 47 then Some 47%N       (* slash *)
  else if N.eqb c 98 then Some 8%N        (* b *)
  else if N.eqb c 102 then Some 12%N      (* f *)
  else if N.eqb c 110 then Some 10%N      (* n *)
  else if N.eqb c 114 then Some 13%N      (* r *)
  else if N.eqb c 116 then Some 9%N       (* t *)
  else None.

Definition is_high_surrogate (c : N) : bool := N.leb 55296 c && N.leb c 56319.
Definition is_low_surrogate (c : N) : bool := N.leb 56320 c && N.leb c 57343.

(** The low half of a surrogate pair at the head of [s], if there is one. *)
Definition low_escape (s : pystr) : option N :=
  match s with
  | bs :: uu :: a :: b :: c :: d :: _ =>
    if N.eqb bs 92 && N.eqb uu 117 then
      match hex4 a b c d with
      | Some lo => if is_low_surrogate lo then Some lo else None
      | None => None
      end
    else None
  | _ => None
  end.

(** The body of a string literal, after its opening quote (strict mode:
    no raw control character). *)
Fixpoint scanstring (s : pystr) (acc : pystr) : option (pystr * pystr) :=
  match s with
  | [] => None
  | c :: r =>
    if N.eqb c 34 then Some (rev acc, r)
    else if N.eqb c 92 then
      match r with
      | [] => None
      | e :: r1 =>
        if N.eqb e 117 then
          match r1 with
          | a :: b :: c' :: d :: r2 =>
            match hex4 a b c' d with
            | None => None
            | Some hi =>
              match (if is_high_surrogate hi then low_escape r2 else None), r2 with
              | Some lo, _ :: _ :: _ :: _ :: _ :: _ :: r3 =>
                scanstring r3
                  ((65536 + N.lor (N.shiftl (hi - 55296) 10) (lo - 56320))%N :: acc)
              | _, _ => scanstring r2 (hi :: acc)
              end
            end
          | _ => None
          end
        else
          match unescape e with
          | Some x => scanstring r1 (x :: acc)
          | None => None
          end
      end
    else if N.ltb c 32 then None
    else scanstring r (c :: acc)
  end.

(** The longest prefix of digits and what follows it. *)
Fixpoint span_digits (s : pystr) : pystr * pystr :=
  match s with
  | c :: r =>
    if is_digit c then let (ds, r') := span_digits r in (c :: ds, r')
    else ([], s)
  | [] => ([], [])
  end.

Definition digits_value (ds : pystr) : Z :=
  fold_left (fun acc c => acc * 10 + Z.of_N (c - 48)) ds 0.

(** The float nearest to [m * 10 ^ e10] ([m >= 0], negated when [neg]):
    an integer is rounded directly; a quotient is cut to at least 64 bits
    with a sticky bit for the remainder, then rounded. *)
Definition float_of_decimal (neg : bool) (m e10 : Z) : float :=
  let sgn (x : Z) := if neg then Z.opp x else x in
  if Z.eqb m 0 then (if neg then (-0)%float else 0%float)
  else if Z.leb 0 e10 then
    SF2Prim (binary_normalize prec emax (sgn (m * Z.pow 10 e10)) 0 false)
  else
    let d := Z.pow 10 (- e10) in
    let sh := Z.max 0 (64 + Z.log2 d - Z.log2 m) in
    let n := m * Z.pow 2 sh in
    let q := Z.div n d in
    let sticky := if Z.eqb (Z.modulo n d) 0 then 0 else 1 in
    SF2Prim (binary_normalize prec emax (sgn (2 * q + sticky)) (- sh - 1) false).

(** The integer part of a number: a single zero, or a non-zero digit and
    any digits. *)
Definition scan_int (s : pystr) : option (pystr * pystr) :=
  match s with
  | [] => None
  | d0 :: r0 =>
    if negb (is_digit d0) then None
    else Some (if N.eqb d0 48 then ([d0], r0) else span_digits s)
  end.

(** The optional fraction: a dot and at least one digit.  A fraction that
    is not complete is left unread. *)
Definition scan_frac (s : pystr) : option pystr * pystr :=
  match s with
  | dot :: rf =>
    if N.eqb dot 46 then
      match span_digits rf with
      | ([], _) => (None, s)
      | (fd, rf') => (Some fd, rf')
      end
    else (None, s)
  | [] => (None, s)
  end.

(** The optional sign of an exponent. *)
Definition scan_sign (s : pystr) : bool * pystr :=
  match s with
  | sg :: s' =>
    if N.eqb sg 45 then (true, s')
    else if N.eqb sg 43 then (false, s')
    else (false, s)
  | [] => (false, s)
  end.

(** The optional exponent: [e] or [E], an optional sign and at least one
    digit.  An exponent that is not complete is left unread. *)
Definition scan_exp (s : pystr) : option Z * pystr :=
  match s with
  | e :: re =>
    if N.eqb e 101 || N.eqb e 69 then
      let (eneg, re1) := scan_sign re in
      match span_digits re1 with
      | ([], _) => (None, s)
      | (ed, re2) =>
        (Some (if eneg then - digits_value ed else digits_value ed), re2)
      end
    else (None, s)
  | [] => (None, s)
  end.

(** A number at the head of [s]: an optional minus sign, the integer part,
    an optional fraction and an optional exponent.  Without fraction and
    exponent it is an [int], otherwise a [float]. *)
Definition scan_number (s : pystr) : option (value * pystr) :=
  let (neg, s1) :=
    match s with
    | c :: r => if N.eqb c 45 then (true, r) else (false, s)
    | [] => (false, s)
    end in
  match scan_int s1 with
  | None => None
  | Some (ip, r1) =>
    let (frac, r2) := scan_frac r1 in
    let (expo, r3) := scan_exp r2 in
    match frac, expo with
    | None, None =>
      Some (VInt (if neg then - digits_value ip else digits_value ip), r3)
    | _, _ =>
      let fd := match frac with Some fd => fd | None => [] end in
      let e := match expo with Some e => e | None => 0 end in
      Some (VFloat (float_of_decimal neg (digits_value (ip ++ fd))
                      (e - Z.of_nat (List.length fd))), r3)
    end
  end.

(** [s] starts with the literal [w]: what follows it. *)
Fixpoint strip_prefix (w s : pystr) : option pystr :=
  match w, s with
  | [], _ => Some s
  | a :: w', b :: s' => if N.eqb a b then strip_prefix w' s' else None
  | _ :: _, [] => None
  end.

Definition scan_literal (s : pystr) : option (value * pystr) :=
  let try (w : pystr) (v : value) (k : option (value * pystr)) :=
    match strip_prefix w s with
    | Some r => Some (v, r)
    | None => k
    end in
  try (u "null") VNone
  (try (u "true") (VBool true)
  (try (u "false") (VBool false)
  (try (u "NaN") (VFloat nan)
  (try (u "Infinity") (VFloat infinity)
  (try (u "-Infinity") (VFloat neg_infinity)
  (scan_number s)))))).

(** One JSON value at the head of [s] (no leading white space), and what
    follows it.  [fuel] bounds the nesting; [json_loads] gives enough. *)
Fixpoint scan_once (fuel : nat) (s : pystr) {struct fuel}
  : option (value * pystr) :=
  match fuel with
  | O => None
  | S n =>
    match s with
    | [] => None
    | c :: r =>
      if N.eqb c 34 then
        match scanstring r [] with
        | Some (x, r') => Some (VStr x, r')
        | None => None
        end
      else if N.eqb c 123 then
        match skip_ws r with
        | c1 :: r1 =>
          if N.eqb c1 125 then Some (VDict [], r1)
          else scan_members n (c1 :: r1) []
        | [] => None
        end
      else if N.eqb c 91 then
        match skip_ws r with
        | c1 :: r1 =>
          if N.eqb c1 93 then Some (VList [], r1)
          else scan_items n (c1 :: r1) []
        | [] => None
        end
      else scan_literal s
    end
  end

(** The items of a non-empty array, from the first item on. *)
with scan_items (fuel : nat) (s : pystr) (acc : list value) {struct fuel}
  : option (value * pystr) :=
  match fuel with
  | O => None
  | S n =>
    match scan_once n s with
    | None => None
    | Some (v, r) =>
      match skip_ws r with
      | c :: r1 =>
        if N.eqb c 93 then Some (VList (rev (v :: acc)), r1)
        else if N.eqb c 44 then scan_items n (skip_ws r1) (v :: acc)
        else None
      | [] => None
      end
    end
  end

(** The members of a non-empty object, from the first key on. *)
with scan_members (fuel : nat) (s : pystr) (acc : list (pystr * value))
       {struct fuel} : option (value * pystr) :=
  match fuel with
  | O => None
  | S n =>
    match s with
    | q :: rk =>
      if N.eqb q 34 then
        match scanstring rk [] with
        | None => None
        | Some (k, r0) =>
          match skip_ws r0 with
          | colon :: r1 =>
            if N.eqb colon 58 then
              match scan_once n (skip_ws r1) with
              | None => None
              | Some (v, r2) =>
                let acc' := dict_set k v acc in
                match skip_ws r2 with
                | c :: r3 =>
                  if N.eqb c 125 then Some (VDict acc', r3)
                  else if N.eqb c 44 then scan_members n (skip_ws r3) acc'
                  else None
                | [] => None
                end
              end
            else None
          | [] => None
          end
        end
      else None
    | [] => None
    end
  end.

(** [json.loads(s)]: one value, white space allowed around it, nothing
    else. *)
Definition json_loads (s : pystr) : option value :=
  match scan_once (2 * List.length s + 2) (skip_ws s) with
  | Some (v, r) => match skip_ws r with [] => Some v | _ => None end
  | None => None
  end.


(* ================================================================== *)
(** * [uuid.uuid4] and [str] of a UUID *)

(** [uuid.UUID(bytes=os.urandom(16), version=4)]: the 128 random bits with
    the variant and version fields overwritten. *)
Definition uuid4_of_random (r : N) : N :=
  let i := N.land r (N.ones 128) in
  let i := N.ldiff i (N.shiftl 49152 48) in      (* int &= ~(0xc000 << 48) *)
  let i := N.lor i (N.shiftl 32768 48) in        (* int |= 0x8000 << 48 *)
  let i := N.ldiff i (N.shiftl 61440 64) in      (* int &= ~(0xf000 << 64) *)
  N.lor i (N.shiftl 4 76).                       (* int |= version << 76 *)

Definition hexdigit (d : N) : N :=
  if N.ltb d 10 then (48 + d)%N else (87 + d)%N.

(** The [k] low hexadecimal digits of [n], most significant first. *)
Fixpoint hex_digits (k : nat) (n : N) : pystr :=
  match k with
  | O => []
  | S k' =>
    hexdigit (N.land (N.shiftr n (4 * N.of_nat k')) 15) :: hex_digits k' n
  end.

(** [str(uuid)]: 32 hexadecimal digits in groups of 8-4-4-4-12. *)
Definition uuid_str (n : N) : pystr :=
  let hex := hex_digits 32 n in
  firstn 8 hex ++ [45%N] ++ firstn 4 (skipn 8 hex) ++ [45%N]
  ++ firstn 4 (skipn 12 hex) ++ [45%N] ++ firstn 4 (skipn 16 hex) ++ [45%N]
  ++ skipn 20 hex.

(* ================================================================== *)
(** * The world of a client *)

(** What the network does at the next exchange on the socket: [send] fails;
    [send] succeeds and [recv] fails; or [recv] finds [data] in the socket's
    buffer (all of it when it fits the requested size). *)
Inductive net_event : Type :=
| SendRaises
| RecvRaises
| Recv (data : bytes).

(** The connected stream socket.  [sent] logs the payloads whose
    [json.dumps] image was handed to [send], oldest first; [incoming] is what
    the network will do next.  When [incoming] is empty the peer stays
    silent, and [recv], which has no timeout, blocks. *)
Record Socket : Type := mkSocket {
  sent : list value;
  incoming : list net_event
}.

(** The attributes of a [LightsClient]. *)
Record LightsClient : Type := mkLightsClient {
  host : value;
  port : value;
  _socket : Socket;
  _pipeline : list value;
  _batch : bool
}.

(** The client and its environment: [urandom i] is the [i]-th draw of 16
    random bytes (as an integer), [drawn] counts the draws; [stdout] holds
    the printed lines; [heap] holds the list objects created by [batch],
    addressed by position. *)
Record World : Type := mkWorld {
  self : LightsClient;
  urandom : nat -> N;
  drawn : nat;
  stdout : list pystr;
  heap : list (list value)
}.

Definition set_self (c : LightsClient) (w : World) : World :=
  mkWorld c (urandom w) (drawn w) (stdout w) (heap w).
Definition set_socket (s : Socket) (c : LightsClient) : LightsClient :=
  mkLightsClient (host c) (port c) s (_pipeline c) (_batch c).
Definition set_pipeline (p : list value) (c : LightsClient) : LightsClient :=
  mkLightsClient (host c) (port c) (_socket c) p (_batch c).
Definition set_batch (b : bool) (c : LightsClient) : LightsClient :=
  mkLightsClient (host c) (port c) (_socket c) (_pipeline c) b.

(** ** Computations: state, exceptions, and blocking for ever *)

Inductive outcome (A : Type) : Type :=
| Returns (a : A)
| Raises (e : exn)
| Blocks.
Arguments Returns {A} a.
Arguments Raises {A} e.
Arguments Blocks {A}.

Definition M (A : Type) : Type := World -> outcome A * World.

Definition ret {A} (a : A) : M A := fun w => (Returns a, w).

Definition bind {A B} (m : M A) (k : A -> M B) : M B :=
  fun w =>
    match m w with
    | (Returns a, w') => k a w'
    | (Raises e, w') => (Raises e, w')
    | (Blocks, w') => (Blocks, w')
    end.

Definition raise {A} (e : exn) : M A := fun w => (Raises e, w).

Definition lift {A} (r : result A) : M A :=
  match r with
  | Ok a => ret a
  | Err e => raise e
  end.

Definition get_self : M LightsClient := fun w => (Returns (self w), w).
Definition modify_self (f : LightsClient -> LightsClient) : M unit :=
  fun w => (Returns tt, set_self (f (self w)) w).

Declare Scope py_scope.
Delimit Scope py_scope with py.
Notation "x <- m ;; k" := (bind m (fun x => k))
  (at level 61, m at next level, right associativity) : py_scope.
Notation "m ;; k" := (bind m (fun _ => k))
  (at level 61, right associativity) : py_scope.
Notation "' pat <- m ;; k" := (bind m (fun x => match x with pat => k end))
  (at level 61, pat pattern, m at next level, right associativity) : py_scope.
Open Scope py_scope.

(** [for x in l: body(x)]. *)
Fixpoint for_each {A} (l : list A) (body : A -> M unit) : M unit :=
  match l with
  | [] => ret tt
  | x :: l' => body x ;; for_each l' body
  end.

(** ** Primitives of the environment *)

(** [uuid.uuid4()]. *)
Definition uuid4 : M N :=
  fun w =>
    (Returns (uuid4_of_random (urandom w (drawn w))),
     mkWorld (self w) (urandom w) (S (drawn w)) (stdout w) (heap w)).

(** [print(line)]. *)
Definition print (line : pystr) : M unit :=
  fun w =>
    (Returns tt,
     mkWorld (self w) (urandom w) (drawn w) (stdout w ++ [line]) (heap w)).

(** [self._socket.send(json.dumps(payload).encode("utf-8"))]. *)
Definition socket_send (payload : value) : M unit :=
  fun w =>
    let c := self w in
    let s := _socket c in
    match incoming s with
    | SendRaises :: rest =>
      (Raises OSError, set_self (set_socket (mkSocket (sent s) rest) c) w)
    | _ =>
      (Returns tt,
       set_self (set_socket (mkSocket (sent s ++ [payload]) (incoming s)) c) w)
    end.

(** The size asked of [recv] by [_execute_payload]. *)
Definition RECV_SIZE : nat := 8192.
Arguments RECV_SIZE : simpl never.

(** [self._socket.recv(bufsize)]: at most [bufsize] octets of what is
    there; the rest stays in the buffer. *)
Definition socket_recv (bufsize : nat) : M bytes :=
  fun w =>
    let c := self w in
    let s := _socket c in
    match incoming s with
    | [] => (Blocks, w)
    | SendRaises :: rest | RecvRaises :: rest =>
      (Raises OSError, set_self (set_socket (mkSocket (sent s) rest) c) w)
    | Recv data :: rest =>
      let rest' :=
        match skipn bufsize data with
        | [] => rest
        | later => Recv later :: rest
        end in
      (Returns (firstn bufsize data),
       set_self (set_socket (mkSocket (sent s) rest') c) w)
    end.

(** A new empty list object; its address. *)
Definition new_list : M nat :=
  fun w =>
    (Returns (List.length (heap w)),
     mkWorld (self w) (urandom w) (drawn w) (stdout w) (heap w ++ [[]])).

Fixpoint heap_update (a : nat) (f : list value -> list value)
  (h : list (list value)) : list (list value) :=
  match h, a with
  | [], _ => []
  | l :: h', O => f l :: h'
  | l :: h', S a' => l :: heap_update a' f h'
  end.

(** [r.extend(items)] on the list object at address [r]. *)
Definition list_extend (r : nat) (items : list value) : M unit :=
  fun w =>
    (Returns tt,
     mkWorld (self w) (urandom w) (drawn w) (stdout w)
       (heap_update r (fun l => l ++ items) (heap w))).

(* ================================================================== *)
(** * class LightsClient *)

(** [__init__(self, host, port)], when [socket.create_connection] succeeds
    on a network that will do [net]. *)
Definition __init__ (host port : value) (net : list net_event) : LightsClient :=
  mkLightsClient host port (mkSocket [] net) [] false.

(** [_make_payload(cls, method, params)]. *)
Definition _make_payload (method params : value) : M value :=
  id <- uuid4 ;;
  ret (VDict [(u "method", method);
              (u "params", params);
              (u "jsonrpc", VStr (u "2.0"));
              (u "id", VStr (uuid_str id))]).

(** [_execute_payload(self, payload)]: one [send], one [recv] of at most
    8192 octets, one attempt at [json.loads]; when that attempt fails the
    text is printed and returned as it is. *)
Definition _execute_payload (payload : value) : M value :=
  socket_send payload ;;
  data <- socket_recv RECV_SIZE ;;
  match utf8_decode data with
  | None => raise UnicodeDecodeError
  | Some response =>
    match json_loads response with
    | Some v => ret v
    | None =>
      print (u "received invalid json: " ++ response) ;;
      ret (VStr response)
    end
  end.

(** [_jsonrpc_call(self, method, params)]. *)
Definition _jsonrpc_call (method params : value) : M value :=
  payload <- _make_payload method params ;;
  c <- get_self ;;
  if _batch c then
    modify_self (fun c => set_pipeline (_pipeline c ++ [payload]) c) ;;
    ret VNone
  else _execute_payload payload.

(** [batch(self)] is a generator used as a context manager.  [batch_enter]
    is the generator up to its [yield]: it hands out the address of a fresh
    list.  [batch_exit] is the generator resumed after a body that ended
    normally. *)
Definition batch_enter : M nat :=
  modify_self (set_batch true) ;;
  response <- new_list ;;
  ret response.

Definition batch_exit (response : nat) : M unit :=
  modify_self (set_batch false) ;;
  c <- get_self ;;
  result <- _execute_payload (VList (_pipeline c)) ;;
  match result with
  | VList l => list_extend response l
  | _ => list_extend response [result]
  end ;;
  modify_self (set_pipeline []).

(** [with self.batch() as response: body(response)].  When the body raises,
    the exception is thrown into the generator at its [yield], which does
    not catch it: nothing after the [yield] runs. *)
Definition batch {A} (body : nat -> M A) : M A :=
  response <- batch_enter ;;
  x <- body response ;;
  batch_exit response ;;
  ret x.

Definition set_light_from_hsbk (target h s b k t : value) : M value :=
  _jsonrpc_call (VStr (u "set_light_from_hsbk")) (VList [target; h; s; b; k; t]).

Definition set_waveform
  (target waveform h s b k period cycles skew_ratio transient : value)
  : M value :=
  _jsonrpc_call (VStr (u "set_waveform"))
    (VList [target; waveform; h; s; b; k; period; cycles; skew_ratio; transient]).

(** A keyword argument with a default value. *)
Definition default (d : value) (arg : option value) : value :=
  match arg with
  | Some v => v
  | None => d
  end.

Definition saw (target h s b k period cycles : value)
  (transient : option value) : M value :=
  set_waveform target (VStr (u "SAW")) h s b k period cycles (VFloat 0.5)
    (default (VBool true) transient).

Definition sine (target h s b k period cycles : value)
  (peak transient : option value) : M value :=
  set_waveform target (VStr (u "SINE")) h s b k period cycles
    (default (VFloat 0.5) peak) (default (VBool true) transient).

Definition half_sine (target h s b k period cycles : value)
  (transient : option value) : M value :=
  set_waveform target (VStr (u "HALF_SINE")) h s b k period cycles
    (VFloat 0.5) (default (VBool true) transient).

Definition triangle (target h s b k period cycles : value)
  (peak transient : option value) : M value :=
  set_waveform target (VStr (u "TRIANGLE")) h s b k period cycles
    (default (VFloat 0.5) peak) (default (VBool true) transient).

Definition square (target h s b k period cycles : value)
  (duty_cycle transient : option value) : M value :=
  set_waveform target (VStr (u "SQUARE")) h s b k period cycles
    (default (VFloat 0.5) duty_cycle) (default (VBool true) transient).

Definition power_on (target : value) : M value :=
  _jsonrpc_call (VStr (u "power_on")) (VDict [(u "target", target)]).

Definition power_off (target : value) : M value :=
  _jsonrpc_call (VStr (u "power_off")) (VDict [(u "target", target)]).

Definition power_toggle (target : value) : M value :=
  _jsonrpc_call (VStr (u "power_toggle")) (VDict [(u "target", target)]).

Definition get_light_state (target : value) : M value :=
  _jsonrpc_call (VStr (u "get_light_state")) (VList [target]).

Definition tag (target tag : value) : M value :=
  _jsonrpc_call (VStr (u "tag")) (VList [target; tag]).

Definition untag (target tag : value) : M value :=
  _jsonrpc_call (VStr (u "untag")) (VList [target; tag]).

Definition set_label (target label : value) : M value :=
  _jsonrpc_call (VStr (u "set_label")) (VList [target; label]).

(** [max(min(b + adjustment, 1.0), 0.0)]. *)
Definition clamp_brightness (b adjustment : value) : result value :=
  match py_add b adjustment with
  | Err e => Err e
  | Ok x =>
    match py_min x 1.0 with
    | Err e => Err e
    | Ok y => py_max y 0.0
    end
  end.

(** The body of the loop of [adjust_brightness]. *)
Definition adjust_bulb (adjustment bulb : value) : M unit :=
  hsbk <- lift (getitem bulb (u "hsbk")) ;;
  ' (h, s, b, k) <- lift (unpack4 hsbk) ;;
  b' <- lift (clamp_brightness b adjustment) ;;
  label <- lift (getitem bulb (u "label")) ;;
  set_light_from_hsbk label h s b' k (VInt 500) ;;
  ret tt.

Definition adjust_brightness (target adjustment : value) : M value :=
  reply <- get_light_state target ;;
  bulbs <- lift (getitem reply (u "result")) ;;
  items <- lift (py_iter bulbs) ;;
  for_each items (adjust_bulb adjustment) ;;
  ret VNone.


(* ================================================================== *)
(** * Vocabulary of the statements *)

(** What has been sent, and what the network holds, in a world. *)
Definition wire (w : World) : list value := sent (_socket (self w)).
Definition inbox (w : World) : list net_event := incoming (_socket (self w)).

(** The request envelope with the given fields. *)
Definition envelope (method params : value) (id : pystr) : value :=
  VDict [(u "method", method);
         (u "params", params);
         (u "jsonrpc", VStr (u "2.0"));
         (u "id", VStr id)].

(** The id of the envelope built from the [i]-th draw of entropy. *)
Definition id_at (w : World) (i : nat) : pystr :=
  uuid_str (uuid4_of_random (urandom w i)).

(** The world after one more draw of entropy. *)
Definition draw (w : World) : World :=
  mkWorld (self w) (urandom w) (S (drawn w)) (stdout w) (heap w).

(** One [recv] returns the whole of [data], and it decodes to [text]. *)
Definition received (data : bytes) (text : pystr) : Prop :=
  (List.length data <= RECV_SIZE)%nat /\ utf8_decode data = Some text.

(** What one [recv] of [RECV_SIZE] octets leaves in the network. *)
Definition leftover (data : bytes) (rest : list net_event) : list net_event :=
  match skipn RECV_SIZE data with
  | [] => rest
  | later => Recv later :: rest
  end.

(** What [_execute_payload] returns for the received [text]: the decoded
    JSON value, or the text itself when it is not JSON. *)
Definition response_of (text : pystr) : value :=
  match json_loads text with
  | Some v => v
  | None => VStr text
  end.

(** What [_execute_payload] prints for the received [text]. *)
Definition invalid_log (text : pystr) : list pystr :=
  match json_loads text with
  | Some _ => []
  | None => [u "received invalid json: " ++ text]
  end.

(** The world after an exchange that sent [payload] and received [text],
    leaving [rest] in the network. *)
Definition exchanged (payload : value) (rest : list net_event) (text : pystr)
  (w : World) : World :=
  mkWorld (set_socket (mkSocket (wire w ++ [payload]) rest) (self w))
    (urandom w) (drawn w) (stdout w ++ invalid_log text) (heap w).

(** The elements a reply contributes to the response list of a batch. *)
Definition reply_items (reply : value) : list value :=
  match reply with
  | VList l => l
  | _ => [reply]
  end.

(** [issues op method params w]: run in [w], [op] builds one envelope for
    [method] with [params]; in single mode the envelope is put on the wire,
    in batching mode it is added to the pending list, which [batch_exit]
    puts on the wire as it is. *)
Definition issues (op : M value) (method : string) (params : value)
  (w : World) : Prop :=
  let request := envelope (VStr (u method)) params (id_at w (drawn w)) in
  if _batch (self w)
  then _pipeline (self (snd (op w))) = _pipeline (self w) ++ [request]
       /\ wire (snd (op w)) = wire w
  else wire (snd (op w)) = wire w ++ [request]
       /\ _pipeline (self (snd (op w))) = _pipeline (self w).

(** The network accepts the next [send]. *)
Definition send_accepted (w : World) : Prop :=
  hd_error (inbox w) <> Some SendRaises.

(** [[f(x) for x in l]], run in order. *)
Fixpoint map_M {A B} (f : A -> M B) (l : list A) : M (list B) :=
  match l with
  | [] => ret []
  | x :: l' =>
    y <- f x ;;
    ys <- map_M f l' ;;
    ret (y :: ys)
  end.

(** The 122 bits of a draw of entropy that [uuid4] keeps: the 128 bits of
    the 16 octets, less the variant field (bits 62 and 63) and the version
    field (bits 76 to 79). *)
Definition random_bits (r : N) : N :=
  N.ldiff (N.land r (N.ones 128))
    (N.lor (N.shiftl 49152 48) (N.shiftl 61440 64)).

(** The draws of entropy used by [n] envelopes built one after the other,
    from the next draw on. *)
Definition next_draws (w : World) (n : nat) : list N :=
  map (urandom w) (seq (drawn w) n).

(** Reading back hexadecimal digits, most significant first. *)
Fixpoint unhex (acc : N) (s : pystr) : N :=
  match s with
  | [] => acc
  | c :: r =>
    unhex (acc * 16 + match hexval c with Some d => d | None => 0 end)%N r
  end.

(** The 32 digits of a UUID in its 8-4-4-4-12 form. *)
Definition ungroup (s : pystr) : pystr :=
  firstn 8 s ++ firstn 4 (skipn 9 s) ++ firstn 4 (skipn 14 s)
  ++ firstn 4 (skipn 19 s) ++ skipn 24 s.

(** [adjusted adjustment bulb params]: the device [bulb] reports a label
    and an [hsbk] that unpacks into hue, saturation, brightness and kelvin
    [h], [s], [b], [k], and [params] is the write that keeps all of them but
    the brightness, which becomes [max(min(b + adjustment, 1.0), 0.0)], over
    500 ms. *)
Definition adjusted (adjustment bulb params : value) : Prop :=
  exists hsbk label h s b k b',
    getitem bulb (u "hsbk") = Ok hsbk
    /\ unpack4 hsbk = Ok (h, s, b, k)
    /\ getitem bulb (u "label") = Ok label
    /\ clamp_brightness b adjustment = Ok b'
    /\ params = VList [label; h; s; b'; k; VInt 500].

(** The [set_light_from_hsbk] envelopes for the writes [paramss], built
    from the draws of entropy number [i], [i + 1], ... *)
Fixpoint write_envelopes (w : World) (i : nat) (paramss : list value)
  : list value :=
  match paramss with
  | [] => []
  | params :: rest =>
    envelope (VStr (u "set_light_from_hsbk")) params (id_at w i)
    :: write_envelopes w (S i) rest
  end.

(** Every reply in [replies] arrives in one read and is text. *)
Definition all_received (replies : list bytes) : Prop :=
  Forall (fun data => exists text, received data text) replies.

(** ** The brightness the specification asks for *)

(** A number of the wire: an [int] or a [float]. *)
Inductive number : Type :=
| Int (z : Z)
| Float (f : float).

Definition number_value (n : number) : value :=
  match n with
  | Int z => VInt z
  | Float f => VFloat f
  end.

(** "current_brightness + delta": integers add exactly, floats add as
    floats, and an integer met by a float becomes a float first; [None]
    when that integer is too large to become one. *)
Definition number_sum (a b : number) : option number :=
  match a, b with
  | Int x, Int y => Some (Int (x + y))
  | Float x, Float y => Some (Float (x + y)%float)
  | Int x, Float y =>
    match float_of_int x with
    | Ok g => Some (Float (g + y)%float)
    | Err _ => None
    end
  | Float x, Int y =>
    match float_of_int y with
    | Ok g => Some (Float (x + g)%float)
    | Err _ => None
    end
  end.

Definition below_zero (x : number) : bool :=
  match x with
  | Int z => Z.ltb z 0
  | Float f => (f <? 0)%float
  end.

Definition above_one (x : number) : bool :=
  match x with
  | Int z => Z.ltb 1 z
  | Float f => (1 <? f)%float
  end.

(** "clamp(x, 0.0, 1.0)": 0.0 for a number below zero, 1.0 for a number
    above one, the number itself otherwise. *)
Definition cut01 (x : number) : number :=
  if below_zero x then Float 0%float
  else if above_one x then Float 1%float
  else x.

(** [brightened delta bulb params]: the device [bulb] reports a label and
    the hue, saturation, brightness and kelvin [h], [s], [b], [k], and
    [params] is the write the specification asks for: the same label, hue,
    saturation and kelvin, the brightness [clamp(b + delta, 0.0, 1.0)], over
    500 ms. *)
Definition brightened (delta : number) (bulb params : value) : Prop :=
  exists (label h s k : value) (b x : number),
    getitem bulb (u "hsbk") = Ok (VList [h; s; number_value b; k])
    /\ getitem bulb (u "label") = Ok label
    /\ number_sum b delta = Some x
    /\ params = VList [label; h; s; number_value (cut01 x); k; VInt 500].

(** ** The shape [adjust_brightness] expects of a reply *)

(** A value that unpacks into exactly four components. *)
Definition has_four (v : value) : bool :=
  match py_iter v with
  | Ok [_; _; _; _] => true
  | _ => false
  end.

(** A device: a mapping with a [label] key and an [hsbk] value of exactly
    four components. *)
Definition device_shape (bulb : value) : bool :=
  match getitem bulb (u "label"), getitem bulb (u "hsbk") with
  | Ok _, Ok hsbk => has_four hsbk
  | _, _ => false
  end.

(** The devices of a reply: the items of the iterable under its [result]
    key, when it is a mapping with such a key. *)
Definition devices_of (reply : value) : option (list value) :=
  match getitem reply (u "result") with
  | Ok bulbs =>
    match py_iter bulbs with
    | Ok items => Some items
    | Err _ => None
    end
  | Err _ => None
  end.

Definition reply_shape (reply : value) : bool :=
  match devices_of reply with
  | Some items => forallb device_shape items
  | None => false
  end.

(** The number of devices before the first one that is not a device. *)
Fixpoint shaped_prefix (items : list value) : nat :=
  match items with
  | [] => O
  | bulb :: rest => if device_shape bulb then S (shaped_prefix rest) else O
  end.

Definition reply_prefix (reply : value) : nat :=
  match devices_of reply with
  | Some items => shaped_prefix items
  | None => O
  end.

(** The exceptions of the built-in operations on values. *)
Definition builtin_error (e : exn) : Prop :=
  e = KeyError \/ e = TypeError \/ e = ValueError \/ e = OverflowError.

(* ================================================================== *)
(** * Sample worlds *)

(** A client just connected, in single mode, on a network that will do
    [net]; the [i]-th draw of entropy is the number [i]. *)
Definition fresh_client (net : list net_event) : World :=
  mkWorld (__init__ (VStr (u "localhost")) (VInt 1234) net) N.of_nat 0 [] [].

Definition star : value := VStr (u "*").

(** The ids of the first and second envelope of a [fresh_client]. *)
Definition id0 : pystr := u "00000000-0000-4000-8000-000000000000".
Definition id1 : pystr := u "00000000-0000-4000-8000-000000000001".

(** A batch of [power_on] then [power_off] whose reply array comes back in
    reversed order. *)
Definition reversed_reply : bytes :=
  js "[{'id': '00000000-0000-4000-8000-000000000001', 'result': 'off'}, {'id': '00000000-0000-4000-8000-000000000000', 'result': 'on'}]".

Definition two_pending (net : list net_event) : World :=
  snd ((batch_enter ;; power_on star ;; power_off star) (fresh_client net)).

(** A JSON object that the peer writes in three pieces. *)
Definition piece1 : bytes := js "{'id': '00000000-0000-4000-8000-000000000000', ".
Definition piece2 : bytes := js "'result': [{'hsbk': [0, 0, 0.9, 3500], ".
Definition piece3 : bytes := js "'label': 'bulb1'}]}".

(** The state of [bulb1] in the example of the specification. *)
Definition bulb1_state : bytes :=
  js "{'id': '00000000-0000-4000-8000-000000000000', 'result': [{'hsbk': [0, 0, 0.9, 3500], 'label': 'bulb1'}]}".

Definition bulb1_ack : bytes :=
  js "{'id': '00000000-0000-4000-8000-000000000001', 'result': true}".

(** The state of two lamps whose hue, saturation and kelvin all differ; the
    brightness of the second is an integer. *)
Definition two_lamps_state : bytes :=
  js "{'id': '00000000-0000-4000-8000-000000000000', 'result': [{'hsbk': [120, 0.5, 0.9, 3500], 'label': 'desk'}, {'hsbk': [240.5, 1, 0, 2700], 'label': 'sofa'}]}".

Definition lamp_ack : bytes :=
  js "{'id': '00000000-0000-4000-8000-000000000002', 'result': true}".

(** A client whose entropy source hands out the same 16 octets again and
    again. *)
Definition stuck_client (net : list net_event) : World :=
  mkWorld (__init__ (VStr (u "localhost")) (VInt 1234) net)
    (fun _ => 0%N) 0 [] [].

(** A reply whose second device has no [hsbk]. *)
Definition second_bulb_broken : bytes :=
  js "{'id': '00000000-0000-4000-8000-000000000000', 'result': [{'hsbk': [0, 0, 0.9, 3500], 'label': 'bulb1'}, {'label': 'bulb2'}]}".

(** An error envelope. *)
Definition error_reply : bytes :=
  js "{'id': '00000000-0000-4000-8000-000000000000', 'error': {'code': -32601, 'message': 'Method not found'}}".

(* ================================================================== *)
(** * The statements under test, as the specification words them *)

(** "For every exchange whose received bytes do not parse as JSON, the
    operation fails": an exception, not a return. *)
Definition malformed_reply_fails : Prop :=
  forall (payload : value) (w : World) (data : bytes) (rest : list net_event)
         (text : pystr),
    inbox w = Recv data :: rest ->
    utf8_decode (firstn RECV_SIZE data) = Some text ->
    json_loads text = None ->
    exists e w', _execute_payload payload w = (Raises e, w').

(** "The response envelope is unwrapped": a reply with a [result] field
    makes the call return that field; a reply with an [error] field makes
    the call fail. *)
Definition unwrapped (reply : value) (o : outcome value) : Prop :=
  match getitem reply (u "result"), getitem reply (u "error") with
  | Ok r, _ => o = Returns r
  | _, Ok _ => exists e, o = Raises e
  | _, _ => True
  end.

Definition single_call_unwraps : Prop :=
  forall (method params : value) (w : World) (data : bytes)
         (rest : list net_event) (text : pystr) (reply : value),
    _batch (self w) = false ->
    inbox w = Recv data :: rest ->
    received data text ->
    json_loads text = Some reply ->
    unwrapped reply (fst (_jsonrpc_call method params w)).

(** "Invoking begin-batch again fails": an exception when the session is
    already batching. *)
Definition nested_batch_fails : Prop :=
  forall (w : World),
    _batch (self w) = true ->
    exists e w', batch_enter w = (Raises e, w').

(** "End-batch matches each element of an array reply to its originating
    request by id": with two pending requests and a reply array holding
    their responses in reversed order, the response list receives the
    responses in the order of the requests. *)
Definition batch_replies_matched_by_id : Prop :=
  forall (w : World) (response : nat) (old : list value)
         (p1 p2 r1 r2 : value) (data : bytes) (text : pystr)
         (rest : list net_event),
    _pipeline (self w) = [p1; p2] ->
    nth_error (heap w) response = Some old ->
    inbox w = Recv data :: rest ->
    received data text ->
    json_loads text = Some (VList [r2; r1]) ->
    getitem r1 (u "id") = getitem p1 (u "id") ->
    getitem r2 (u "id") = getitem p2 (u "id") ->
    nth_error (heap (snd (batch_exit response w))) response
    = Some (old ++ [r1; r2]).

(** "For any reply not of this shape, [adjust_brightness] fails before
    issuing any write": an exception, and only the read on the wire. *)
Definition misshaped_reply_fails_before_any_write : Prop :=
  forall (target adjustment : value) (w : World) (data : bytes)
         (text : pystr) (rest : list net_event),
    _batch (self w) = false ->
    inbox w = Recv data :: rest ->
    received data text ->
    reply_shape (response_of text) = false ->
    exists e w',
      adjust_brightness target adjustment w = (Raises e, w')
      /\ wire w'
         = wire w ++ [envelope (VStr (u "get_light_state")) (VList [target])
                        (id_at w (drawn w))].

(** The ids of the envelopes that [_make_payload] builds for the requests
    [reqs], one after the other. *)
Definition built_ids (reqs : list (value * value)) (w : World)
  : list (result value) :=
  match fst (map_M (fun r => _make_payload (fst r) (snd r)) reqs w) with
  | Returns payloads => map (fun p => getitem p (u "id")) payloads
  | _ => []
  end.

(** "No two envelopes built by the session share an id." *)
Definition envelope_ids_unique : Prop :=
  forall (reqs : list (value * value)) (w : World), NoDup (built_ids reqs w).

(* ================================================================== *)
(** * Vocabulary of the further properties *)

(** The envelopes of the requests [reqs] (method and params), built from
    the draws of entropy number [i], [i + 1], ... *)
Fixpoint request_envelopes (w : World) (i : nat) (reqs : list (value * value))
  : list value :=
  match reqs with
  | [] => []
  | r :: rest =>
    envelope (fst r) (snd r) (id_at w i) :: request_envelopes w (S i) rest
  end.

(** The calls [reqs], one after the other; their results. *)
Definition call_all (reqs : list (value * value)) : M (list value) :=
  map_M (fun r => _jsonrpc_call (fst r) (snd r)) reqs.

(** The world after the calls [reqs] were queued by a batching session. *)
Definition queued (reqs : list (value * value)) (w : World) : World :=
  mkWorld
    (set_pipeline (_pipeline (self w) ++ request_envelopes w (drawn w) reqs)
       (self w))
    (urandom w) (drawn w + List.length reqs) (stdout w) (heap w).

(** [op] leaves the mode of the session as it finds it, however it ends. *)
Definition keeps_mode {A} (op : M A) : Prop :=
  forall w, _batch (self (snd (op w))) = _batch (self w).

(** The world after [batch_enter]: batching, with one more list object,
    empty. *)
Definition entered (w : World) : World :=
  mkWorld (set_batch true (self w)) (urandom w) (drawn w) (stdout w)
    (heap w ++ [[]]).

(** The world after the flush of a batch that received [text], leaving
    [rest] in the network: the pending list went out as one array, the
    items of the reply joined the list at address [response]. *)
Definition flushed (response : nat) (rest : list net_event) (text : pystr)
  (w : World) : World :=
  let w1 :=
    exchanged (VList (_pipeline (self w))) rest text
      (set_self (set_batch false (self w)) w) in
  mkWorld (set_pipeline [] (self w1)) (urandom w1) (drawn w1) (stdout w1)
    (heap_update response (fun l => l ++ reply_items (response_of text))
       (heap w1)).

(** Two exchanges in a row; their two results. *)
Definition exchange_twice (p1 p2 : value) : M (value * value) :=
  x <- _execute_payload p1 ;;
  y <- _execute_payload p2 ;;
  ret (x, y).

(** A reply of 8194 octets: an array whose last item and closing bracket
    are beyond the size of one read. *)
Definition long_reply : bytes :=
  u "[1," ++ repeat 32%N 8189 ++ u "2]".

(* ================================================================== *)
(** * Basic facts *)

(** ** The library models on sample inputs *)

Example json_loads_object :
  option_map json_loads
    (utf8_decode (js "{'id': 'x', 'result': [1, -2.5e1, true, null, 'aé']}"))
  = Some (Some (VDict [(u "id", VStr (u "x"));
                 (u "result",
                  VList [VInt 1; VFloat (-25); VBool true; VNone;
                         VStr [97%N; 233%N]])])).
Proof. vm_compute. reflexivity. Qed.

Example json_loads_repeated_key :
  json_loads (js "{'a': 1, 'b': 2, 'a': 3}")
  = Some (VDict [(u "a", VInt 3); (u "b", VInt 2)]).
Proof. vm_compute. reflexivity. Qed.

Example json_loads_rejects :
  map json_loads
    [js "{'id':"; u ""; u "[1,]"; u "01"; u "1 2"; u "{'a': 1}"; u "nul"]
  = [None; None; None; None; None; None; None].
Proof. vm_compute. reflexivity. Qed.

Example utf8_decode_samples :
  utf8_decode [226; 130; 172]%N = Some [8364%N]        (* the euro sign *)
  /\ utf8_decode [226; 130]%N = None                   (* cut short *)
  /\ utf8_decode [192; 128]%N = None                   (* overlong *)
  /\ utf8_decode [237; 160; 128]%N = None.             (* a surrogate *)
Proof. vm_compute. repeat split; reflexivity. Qed.

Example uuid_str_sample :
  uuid_str (uuid4_of_random (N.ones 128))
  = u "ffffffff-ffff-4fff-bfff-ffffffffffff".
Proof. vm_compute. reflexivity. Qed.

Example clamp_brightness_samples :
  clamp_brightness (VFloat 0.9) (VFloat 0.2) = Ok (VFloat 1)
  /\ clamp_brightness (VFloat 0.25) (VFloat (-0.5)) = Ok (VFloat 0)
  /\ clamp_brightness (VFloat 0.25) (VFloat 0.5) = Ok (VFloat 0.75)
  /\ clamp_brightness (VInt 1) (VInt 0) = Ok (VInt 1)
  /\ clamp_brightness (VInt 0) (VFloat 0.5) = Ok (VFloat 0.5)
  /\ clamp_brightness (VStr (u "a")) (VStr (u "b")) = Err TypeError
  /\ clamp_brightness VNone (VFloat 0.5) = Err TypeError
  /\ clamp_brightness (VInt (10 ^ 400)) (VFloat 0.5) = Err OverflowError.
Proof. vm_compute. repeat split; reflexivity. Qed.

(** ** The fuel of [json_loads] *)

(** [scan_once] is given twice the length of the text as fuel.  That is
    enough: a value found with any fuel is found with that much, so
    [json_loads] answers [None] only for a text that is not JSON. *)

Lemma skip_ws_length (s : pystr) :
  (List.length (skip_ws s) <= List.length s)%nat.
Proof.
  induction s as [|c s IH]; cbn [skip_ws List.length]; [lia|].
  destruct (is_ws c); cbn [List.length]; lia.
Qed.

Lemma span_digits_length (s ds r : pystr) :
  span_digits s = (ds, r) -> (List.length r <= List.length s)%nat.
Proof.
  revert ds r. induction s as [|c s IH]; intros ds r; cbn [span_digits].
  - intros [= <- <-]. cbn. lia.
  - destruct (is_digit c).
    + destruct (span_digits s) as [ds' r'] eqn:Hs. intros [= <- <-].
      specialize (IH _ _ eq_refl). cbn [List.length]. lia.
    + intros [= <- <-]. lia.
Qed.

Lemma strip_prefix_length (w s r : pystr) :
  strip_prefix w s = Some r ->
  (List.length r + List.length w = List.length s)%nat.
Proof.
  revert s. induction w as [|a w IH]; intros [|b s]; cbn [strip_prefix];
    try discriminate.
  - intros [= <-]. cbn. lia.
  - intros [= <-]. cbn. lia.
  - destruct (N.eqb a b); [|discriminate].
    intros H. apply IH in H. cbn [List.length]. lia.
Qed.

Ltac split_scrutinee H :=
  match type of H with
  | context [if ?b then _ else _] => destruct b eqn:?
  | context [match ?x with _ => _ end] => destruct x eqn:?
  end.

Lemma scanstring_shorter (n : nat) :
  forall (s acc x r : pystr),
    (List.length s <= n)%nat ->
    scanstring s acc = Some (x, r) ->
    (List.length r < List.length s)%nat.
Proof.
  induction n as [|n IH]; intros s acc x r Hn H.
  - destruct s; [discriminate H | cbn in Hn; lia].
  - destruct s as [|c s]; [discriminate H|].
    cbn [scanstring] in H. cbn [List.length] in *.
    repeat (split_scrutinee H; try discriminate H; subst;
            cbn [List.length] in * );
      try (injection H as <- <-; cbn [List.length]; lia);
      try (apply IH in H; cbn [List.length] in *; lia).
Qed.

Lemma scan_int_shorter (s ip r : pystr) :
  scan_int s = Some (ip, r) -> (List.length r < List.length s)%nat.
Proof.
  unfold scan_int. destruct s as [|d0 r0]; [discriminate|].
  destruct (is_digit d0) eqn:Hd; cbn [negb]; [|discriminate].
  destruct (N.eqb d0 48).
  - intros [= <- <-]. cbn. lia.
  - cbn [span_digits]. rewrite Hd.
    destruct (span_digits r0) as [ds r'] eqn:Hs. intros [= <- <-].
    apply span_digits_length in Hs. cbn [List.length]. lia.
Qed.

Lemma scan_frac_length (s : pystr) (frac : option pystr) (r : pystr) :
  scan_frac s = (frac, r) -> (List.length r <= List.length s)%nat.
Proof.
  unfold scan_frac. destruct s as [|dot rf]; [intros [= <- <-]; lia|].
  destruct (N.eqb dot 46); [|intros [= <- <-]; lia].
  destruct (span_digits rf) as [[|d fd] rf'] eqn:Hs; intros [= <- <-];
    [lia|].
  apply span_digits_length in Hs. cbn [List.length]. lia.
Qed.

Lemma scan_sign_length (s : pystr) (neg : bool) (r : pystr) :
  scan_sign s = (neg, r) -> (List.length r <= List.length s)%nat.
Proof.
  unfold scan_sign. destruct s as [|sg s']; [intros [= <- <-]; lia|].
  destruct (N.eqb sg 45); [intros [= <- <-]; cbn; lia|].
  destruct (N.eqb sg 43); intros [= <- <-]; cbn; lia.
Qed.

Lemma scan_exp_length (s : pystr) (expo : option Z) (r : pystr) :
  scan_exp s = (expo, r) -> (List.length r <= List.length s)%nat.
Proof.
  unfold scan_exp. destruct s as [|e re]; [intros [= <- <-]; lia|].
  destruct (N.eqb e 101 || N.eqb e 69); [|intros [= <- <-]; lia].
  destruct (scan_sign re) as [eneg re1] eqn:Hsign.
  apply scan_sign_length in Hsign.
  destruct (span_digits re1) as [[|d ed] re2] eqn:Hs; intros [= <- <-];
    [lia|].
  apply span_digits_length in Hs. cbn [List.length]. lia.
Qed.

Lemma scan_number_shorter (s : pystr) (v : value) (r : pystr) :
  scan_number s = Some (v, r) -> (List.length r < List.length s)%nat.
Proof.
  unfold scan_number.
  set (signed := match s with
                 | [] => (false, s)
                 | c :: r0 => if N.eqb c 45 then (true, r0) else (false, s)
                 end).
  assert (Hsigned : (List.length (snd signed) <= List.length s)%nat).
  { subst signed. destruct s as [|c r0]; [cbn; lia|].
    destruct (N.eqb c 45); cbn; lia. }
  destruct signed as [neg s1]. cbn [snd] in Hsigned.
  destruct (scan_int s1) as [[ip r1]|] eqn:Hint; [|discriminate].
  apply scan_int_shorter in Hint.
  destruct (scan_frac r1) as [frac r2] eqn:Hfrac.
  apply scan_frac_length in Hfrac.
  destruct (scan_exp r2) as [expo r3] eqn:Hexp.
  apply scan_exp_length in Hexp.
  destruct frac, expo; intros [= <- <-]; lia.
Qed.

Lemma scan_literal_shorter (s : pystr) (v : value) (r : pystr) :
  scan_literal s = Some (v, r) -> (List.length r < List.length s)%nat.
Proof.
  unfold scan_literal.
  repeat match goal with
         | |- context [strip_prefix ?w s] =>
           let H := fresh "H" in
           destruct (strip_prefix w s) eqn:H;
             [apply strip_prefix_length in H; cbn in H;
              intros [= <- <-]; lia|]
         end.
  apply scan_number_shorter.
Qed.

Lemma scan_fuel (fuel' : nat) :
  (forall s v r,
      scan_once fuel' s = Some (v, r) ->
      (List.length r < List.length s)%nat
      /\ forall fuel, (2 * List.length s <= fuel)%nat ->
                      scan_once fuel s = Some (v, r))
  /\ (forall s acc v r,
         scan_items fuel' s acc = Some (v, r) ->
         (List.length r < List.length s)%nat
         /\ forall fuel, (2 * List.length s + 1 <= fuel)%nat ->
                         scan_items fuel s acc = Some (v, r))
  /\ (forall s acc v r,
         scan_members fuel' s acc = Some (v, r) ->
         (List.length r < List.length s)%nat
         /\ forall fuel, (2 * List.length s + 1 <= fuel)%nat ->
                         scan_members fuel s acc = Some (v, r)).
Proof.
  induction fuel' as [|n (IHonce & IHitems & IHmembers)];
    [repeat split; discriminate|].
  split; [|split].
  - (* scan_once *)
    intros [|c r0] v r H; [discriminate H|].
    cbn [scan_once] in H.
    destruct (N.eqb c 34) eqn:Hq.
    { destruct (scanstring r0 []) as [[x r']|] eqn:Hstr; [|discriminate H].
      injection H as <- <-.
      apply (scanstring_shorter (List.length r0)) in Hstr as Hlen; [|lia].
      split; [cbn [List.length]; lia|].
      intros [|m] Hm; [cbn in Hm; lia|].
      cbn [scan_once]. now rewrite Hq, Hstr. }
    destruct (N.eqb c 123) eqn:Hobj.
    { pose proof (skip_ws_length r0) as Hws.
      destruct (skip_ws r0) as [|c1 r1] eqn:Hskip; [discriminate H|].
      destruct (N.eqb c1 125) eqn:Hclose.
      - injection H as <- <-. cbn [List.length] in *. split; [lia|].
        intros [|m] Hm; [lia|].
        cbn [scan_once]. now rewrite Hq, Hobj, Hskip, Hclose.
      - apply IHmembers in H. destruct H as [Hlen Hfuel].
        cbn [List.length] in *. split; [lia|].
        intros [|m] Hm; [lia|].
        cbn [scan_once]. rewrite Hq, Hobj, Hskip, Hclose.
        apply Hfuel. cbn [List.length]. lia. }
    destruct (N.eqb c 91) eqn:Harr.
    { pose proof (skip_ws_length r0) as Hws.
      destruct (skip_ws r0) as [|c1 r1] eqn:Hskip; [discriminate H|].
      destruct (N.eqb c1 93) eqn:Hclose.
      - injection H as <- <-. cbn [List.length] in *. split; [lia|].
        intros [|m] Hm; [lia|].
        cbn [scan_once]. now rewrite Hq, Hobj, Harr, Hskip, Hclose.
      - apply IHitems in H. destruct H as [Hlen Hfuel].
        cbn [List.length] in *. split; [lia|].
        intros [|m] Hm; [lia|].
        cbn [scan_once]. rewrite Hq, Hobj, Harr, Hskip, Hclose.
        apply Hfuel. cbn [List.length]. lia. }
    split; [exact (scan_literal_shorter _ _ _ H)|].
    intros [|m] Hm; [cbn [List.length] in Hm; lia|].
    cbn [scan_once]. now rewrite Hq, Hobj, Harr.
  - (* scan_items *)
    intros s acc v r H. cbn [scan_items] in H.
    destruct (scan_once n s) as [[v1 r1]|] eqn:Hitem; [|discriminate H].
    apply IHonce in Hitem. destruct Hitem as [Hlen1 Hfuel1].
    pose proof (skip_ws_length r1) as Hws.
    destruct (skip_ws r1) as [|c r2] eqn:Hskip; [discriminate H|].
    cbn [List.length] in Hws.
    destruct (N.eqb c 93) eqn:Hclose.
    + injection H as <- <-. split; [lia|].
      intros [|m] Hm; [lia|].
      cbn [scan_items]. rewrite Hfuel1 by lia. now rewrite Hskip, Hclose.
    + destruct (N.eqb c 44) eqn:Hcomma; [|discriminate H].
      apply IHitems in H. destruct H as [Hlen Hfuel].
      pose proof (skip_ws_length r2) as Hws2.
      split; [lia|].
      intros [|m] Hm; [lia|].
      cbn [scan_items]. rewrite Hfuel1 by lia. rewrite Hskip, Hclose, Hcomma.
      apply Hfuel. lia.
  - (* scan_members *)
    intros [|q rk] acc v r H; [discriminate H|].
    cbn [scan_members] in H.
    destruct (N.eqb q 34) eqn:Hq; [|discriminate H].
    destruct (scanstring rk []) as [[k r0]|] eqn:Hkey; [|discriminate H].
    apply (scanstring_shorter (List.length rk)) in Hkey as Hlenk; [|lia].
    pose proof (skip_ws_length r0) as Hws0.
    destruct (skip_ws r0) as [|colon r1] eqn:Hskip0; [discriminate H|].
    cbn [List.length] in Hws0.
    destruct (N.eqb colon 58) eqn:Hcolon; [|discriminate H].
    pose proof (skip_ws_length r1) as Hws1.
    destruct (scan_once n (skip_ws r1)) as [[v1 r2]|] eqn:Hval;
      [|discriminate H].
    apply IHonce in Hval. destruct Hval as [Hlen2 Hfuel2].
    pose proof (skip_ws_length r2) as Hws2.
    destruct (skip_ws r2) as [|c r3] eqn:Hskip2; [discriminate H|].
    cbn [List.length] in Hws2.
    destruct (N.eqb c 125) eqn:Hclose.
    + injection H as <- <-. cbn [List.length]. split; [lia|].
      intros [|m] Hm; [lia|].
      cbn [scan_members]. rewrite Hq, Hkey, Hskip0, Hcolon.
      rewrite Hfuel2 by lia. now rewrite Hskip2, Hclose.
    + destruct (N.eqb c 44) eqn:Hcomma; [|discriminate H].
      apply IHmembers in H. destruct H as [Hlen Hfuel].
      pose proof (skip_ws_length r3) as Hws3.
      cbn [List.length]. split; [lia|].
      intros [|m] Hm; [lia|].
      cbn [scan_members]. rewrite Hq, Hkey, Hskip0, Hcolon.
      rewrite Hfuel2 by lia. rewrite Hskip2, Hclose, Hcomma.
      apply Hfuel. lia.
Qed.

(** The fuel of [json_loads] is enough: whatever more fuel would find,
    [json_loads] finds. *)
Lemma json_loads_fuel (s : pystr) (fuel : nat) (v : value) :
  match scan_once fuel (skip_ws s) with
  | Some (v', r) => match skip_ws r with [] => Some v' | _ => None end
  | None => None
  end = Some v ->
  json_loads s = Some v.
Proof.
  unfold json_loads.
  destruct (scan_once fuel (skip_ws s)) as [[v' r]|] eqn:Hscan;
    [|discriminate].
  destruct (scan_fuel fuel) as (Honce & _ & _).
  destruct (Honce _ _ _ Hscan) as [_ Hfuel].
  rewrite Hfuel; [tauto|].
  pose proof (skip_ws_length s). lia.
Qed.

(** ** The transport *)

Lemma make_payload_eq (method params : value) (w : World) :
  _make_payload method params w
  = (Returns (envelope method params (id_at w (drawn w))), draw w).
Proof. reflexivity. Qed.

Lemma socket_send_ok (payload : value) (w : World) :
  hd_error (inbox w) <> Some SendRaises ->
  socket_send payload w
  = (Returns tt,
     set_self (set_socket (mkSocket (wire w ++ [payload]) (inbox w)) (self w)) w).
Proof.
  unfold socket_send, inbox, wire. intros H.
  destruct (incoming (_socket (self w))) as [|[| |data] rest];
    try reflexivity.
  now elim H.
Qed.

(** One exchange when the network holds [data]: the first [RECV_SIZE] octets are
    read, whatever they are, and the rest is left behind. *)
Lemma execute_payload_read (payload : value) (w : World) (data : bytes)
  (rest : list net_event) (text : pystr) :
  inbox w = Recv data :: rest ->
  utf8_decode (firstn RECV_SIZE data) = Some text ->
  _execute_payload payload w
  = (Returns (response_of text),
     exchanged payload (leftover data rest) text w).
Proof.
  intros Hin Hdec. unfold _execute_payload, bind.
  rewrite socket_send_ok by (rewrite Hin; discriminate).
  unfold socket_recv. cbn [self set_self _socket set_socket incoming sent].
  rewrite Hin, Hdec.
  unfold response_of, exchanged, invalid_log, leftover.
  destruct (json_loads text) as [v|]; cbn.
  - unfold ret, wire. cbn. rewrite app_nil_r. reflexivity.
  - reflexivity.
Qed.

Lemma leftover_all (data : bytes) (rest : list net_event) :
  (List.length data <= RECV_SIZE)%nat -> leftover data rest = rest.
Proof.
  intros H. unfold leftover. now rewrite skipn_all2 by exact H.
Qed.

Lemma execute_payload_recv (payload : value) (w : World) (data : bytes)
  (rest : list net_event) (text : pystr) :
  inbox w = Recv data :: rest ->
  received data text ->
  _execute_payload payload w
  = (Returns (response_of text), exchanged payload rest text w).
Proof.
  intros Hin [Hlen Hdec].
  rewrite <- (leftover_all data rest Hlen).
  apply execute_payload_read; [exact Hin |].
  now rewrite firstn_all2 by exact Hlen.
Qed.

Lemma jsonrpc_call_single (method params : value) (w : World) :
  _batch (self w) = false ->
  _jsonrpc_call method params w
  = _execute_payload (envelope method params (id_at w (drawn w))) (draw w).
Proof.
  intros H. unfold _jsonrpc_call, bind. rewrite make_payload_eq.
  unfold get_self. cbn. rewrite H. reflexivity.
Qed.

Lemma jsonrpc_call_batching (method params : value) (w : World) :
  _batch (self w) = true ->
  _jsonrpc_call method params w
  = (Returns VNone,
     set_self
       (set_pipeline
          (_pipeline (self w) ++ [envelope method params (id_at w (drawn w))])
          (self w))
       (draw w)).
Proof.
  intros H. unfold _jsonrpc_call, bind. rewrite make_payload_eq.
  unfold get_self. cbn. rewrite H. reflexivity.
Qed.

(** A call in single mode whose reply arrives in one piece returns what
    [_execute_payload] makes of it. *)
Lemma jsonrpc_call_recv (method params : value) (w : World) (data : bytes)
  (rest : list net_event) (text : pystr) :
  _batch (self w) = false ->
  inbox w = Recv data :: rest ->
  received data text ->
  _jsonrpc_call method params w
  = (Returns (response_of text),
     exchanged (envelope method params (id_at w (drawn w))) rest text (draw w)).
Proof.
  intros Hb Hin Hrx. rewrite jsonrpc_call_single by exact Hb.
  apply execute_payload_recv with (data := data); assumption.
Qed.

(* ================================================================== *)
(** * Malformed replies (C5) *)

(** C5, as stated, fails: a reply that is not JSON is returned to the
    caller as a string; no exception is raised. *)
Lemma malformed_reply_is_returned : ~ malformed_reply_fails.
Proof.
  intros H.
  destruct (H VNone (fresh_client [Recv (u "oops")]) (u "oops") [] (u "oops")
              eq_refl eq_refl eq_refl) as (e & w' & He).
  vm_compute in He. discriminate He.
Qed.

(** C5, amended: for every exchange whose received text does not parse as
    JSON, [_execute_payload] prints "received invalid json: " followed by
    the text on standard output and returns the text itself, as a string, to
    the caller; it raises nothing. *)
Theorem execute_payload_invalid_json (payload : value) (w : World)
  (data : bytes) (rest : list net_event) (text : pystr) :
  inbox w = Recv data :: rest ->
  utf8_decode (firstn RECV_SIZE data) = Some text ->
  json_loads text = None ->
  exists w',
    _execute_payload payload w = (Returns (VStr text), w')
    /\ stdout w' = stdout w ++ [u "received invalid json: " ++ text]
    /\ wire w' = wire w ++ [payload].
Proof.
  intros Hin Hdec Hbad.
  eexists. split.
  - rewrite (execute_payload_read payload w data rest text Hin Hdec).
    unfold response_of. rewrite Hbad. reflexivity.
  - unfold exchanged, invalid_log. rewrite Hbad. cbn. split; reflexivity.
Qed.

Lemma execute_payload_invalid_json_witness :
  exists w',
    _execute_payload VNone (fresh_client [Recv (u "oops")])
    = (Returns (VStr (u "oops")), w')
    /\ stdout w' = [u "received invalid json: oops"]
    /\ wire w' = [VNone].
Proof.
  exact (execute_payload_invalid_json VNone (fresh_client [Recv (u "oops")])
           (u "oops") [] (u "oops") eq_refl eq_refl eq_refl).
Defined.

(* ================================================================== *)
(** * Calls in single mode (C3) *)

(** C3, as stated, fails: the reply [{"id": X, "result": 42}] makes the call
    return the whole envelope, not 42. *)
Lemma single_call_returns_envelope : ~ single_call_unwraps.
Proof.
  intros H.
  pose (data := js "{'id': '00000000-0000-4000-8000-000000000000', 'result': 42}").
  assert (Hrx : received data data).
  { split; [apply Nat.leb_le|]; vm_compute; reflexivity. }
  eassert (Hjs : json_loads data = Some _) by (vm_compute; reflexivity).
  specialize (H (VStr (u "get_light_state")) (VList [star])
                (fresh_client [Recv data]) data [] data _
                eq_refl eq_refl Hrx Hjs).
  vm_compute in H. discriminate H.
Qed.

(** C3, amended: for every call issued in single mode whose reply arrives
    in one piece, the call returns the decoded reply as it is, envelope
    included: a reply with a [result] field is returned whole (the caller
    reads [result] out of it), and so is a reply with an [error] field; no
    exception is raised for it. *)
Theorem jsonrpc_call_returns_reply (method params : value) (w : World)
  (data : bytes) (rest : list net_event) (text : pystr) (reply : value) :
  _batch (self w) = false ->
  inbox w = Recv data :: rest ->
  received data text ->
  json_loads text = Some reply ->
  fst (_jsonrpc_call method params w) = Returns reply
  /\ wire (snd (_jsonrpc_call method params w))
     = wire w ++ [envelope method params (id_at w (drawn w))].
Proof.
  intros Hb Hin Hrx Hjs.
  rewrite (jsonrpc_call_recv method params w data rest text Hb Hin Hrx).
  unfold response_of. rewrite Hjs. split; reflexivity.
Qed.

Lemma jsonrpc_call_returns_reply_witness :
  let data := js "{'id': '00000000-0000-4000-8000-000000000000', 'error': {'code': -1, 'message': 'boom'}}" in
  let w := fresh_client [Recv data] in
  fst (_jsonrpc_call (VStr (u "power_on")) (VDict [(u "target", star)]) w)
  = Returns (VDict [(u "id", VStr id0);
                    (u "error", VDict [(u "code", VInt (-1));
                                       (u "message", VStr (u "boom"))])])
  /\ wire (snd (_jsonrpc_call (VStr (u "power_on"))
                  (VDict [(u "target", star)]) w))
     = [envelope (VStr (u "power_on")) (VDict [(u "target", star)]) id0].
Proof.
  intros data w.
  apply (jsonrpc_call_returns_reply (VStr (u "power_on"))
           (VDict [(u "target", star)]) w data [] data).
  - reflexivity.
  - reflexivity.
  - split; [apply Nat.leb_le|]; vm_compute; reflexivity.
  - vm_compute. reflexivity.
Defined.

(* ================================================================== *)
(** * Entering a batch (C6) *)

(** C6, as stated, fails: entering a batch while batching raises
    nothing. *)
Lemma nested_batch_is_accepted : ~ nested_batch_fails.
Proof.
  intros H.
  destruct (H (snd (batch_enter (fresh_client []))) eq_refl) as (e & w' & He).
  vm_compute in He. discriminate He.
Qed.

(** C6, amended: entering a batch never fails, whatever the mode of the
    session.  It returns a new, empty response list, leaves the session in
    batching mode and leaves the pending list as it was, so that a session
    already batching goes on accumulating into the same pending list. *)
Theorem batch_enter_always_returns (w : World) :
  exists w',
    batch_enter w = (Returns (List.length (heap w)), w')
    /\ _batch (self w') = true
    /\ _pipeline (self w') = _pipeline (self w)
    /\ heap w' = heap w ++ [[]]
    /\ forall method params,
         _pipeline (self (snd (_jsonrpc_call method params w')))
         = _pipeline (self w) ++ [envelope method params (id_at w (drawn w))].
Proof.
  eexists. split; [reflexivity|].
  do 3 (split; [reflexivity|]).
  intros method params. rewrite jsonrpc_call_batching by reflexivity.
  reflexivity.
Qed.

(* ================================================================== *)
(** * Leaving a batch (C1, C2) *)

Lemma heap_update_nth (a : nat) (f : list value -> list value)
  (h : list (list value)) :
  nth_error (heap_update a f h) a = option_map f (nth_error h a).
Proof.
  revert a. induction h as [|l h IH]; intros [|a]; cbn; auto.
Qed.

(** An exchange never touches the mode or the pending list. *)
Lemma execute_payload_keeps_session (payload : value) (w : World) :
  _batch (self (snd (_execute_payload payload w))) = _batch (self w)
  /\ _pipeline (self (snd (_execute_payload payload w))) = _pipeline (self w).
Proof.
  unfold _execute_payload, bind, socket_send, socket_recv.
  destruct (incoming (_socket (self w))) as [|[| |data] rest] eqn:Hin;
    cbn; rewrite ?Hin; cbn; auto.
  destruct (utf8_decode (firstn RECV_SIZE data)) as [text|]; cbn; auto.
  destruct (json_loads text); cbn; auto.
Qed.

(** When the flush returns, the session is in single mode with nothing
    pending. *)
Lemma batch_exit_returns_reset (response : nat) (w w' : World) :
  batch_exit response w = (Returns tt, w') ->
  _batch (self w') = false /\ _pipeline (self w') = [].
Proof.
  unfold batch_exit, bind, modify_self, get_self. cbn.
  pose proof (execute_payload_keeps_session
                (VList (_pipeline (self w)))
                (set_self (set_batch false (self w)) w)) as [Hb _].
  destruct (_execute_payload _ _) as [[v| |] w1]; try discriminate.
  cbn in Hb.
  destruct v; cbn; intros H; injection H as <-; cbn; auto.
Qed.

(** When the flush raises, the session is in single mode and the pending
    list is what it was. *)
Lemma batch_exit_raises_keeps_pending (response : nat) (w w' : World) (e : exn) :
  batch_exit response w = (Raises e, w') ->
  _batch (self w') = false /\ _pipeline (self w') = _pipeline (self w).
Proof.
  unfold batch_exit, bind, modify_self, get_self. cbn.
  pose proof (execute_payload_keeps_session
                (VList (_pipeline (self w)))
                (set_self (set_batch false (self w)) w)) as [Hb Hp].
  destruct (_execute_payload _ _) as [[v| |] w1]; try discriminate.
  - destruct v; cbn; discriminate.
  - intros H. injection H as _ <-. cbn in Hb, Hp. auto.
Qed.

(** C1: the claim fails on the code when the transport raises.  A session
    with one pending [power_on] whose flush meets a failing [send]: the
    flush raises [OSError], the session is back in single mode, but the
    pending list still holds the [power_on] envelope; the next batch, a
    lone [power_off], then puts both envelopes on the wire. *)
Theorem batch_exit_failure_leaks_pending :
  let stale := envelope (VStr (u "power_on")) (VDict [(u "target", star)]) id0 in
  let w1 := snd ((batch_enter ;; power_on star)
                   (fresh_client [SendRaises; Recv (u "[]")])) in
  let w2 := snd (batch_exit 0 w1) in
  let w3 := snd (batch (fun _ => power_off star) w2) in
  _batch (self w1) = true
  /\ _pipeline (self w1) = [stale]
  /\ fst (batch_exit 0 w1) = Raises OSError
  /\ _batch (self w2) = false
  /\ _pipeline (self w2) = [stale]
  /\ wire w3
     = [VList [stale;
               envelope (VStr (u "power_off")) (VDict [(u "target", star)]) id1]].
Proof.
  vm_compute. repeat split; reflexivity.
Qed.

(** C2, as stated, fails: the response list receives the reply array in the
    order of the reply. *)
Lemma batch_replies_keep_reply_order : ~ batch_replies_matched_by_id.
Proof.
  intros H.
  pose (w := two_pending [Recv reversed_reply]).
  assert (Hrx : received reversed_reply reversed_reply).
  { split; [apply Nat.leb_le|]; vm_compute; reflexivity. }
  eassert (Hjs : json_loads reversed_reply = Some (VList [_; _]))
    by (vm_compute; reflexivity).
  specialize (H w 0%nat [] _ _ _ _ reversed_reply reversed_reply []
                eq_refl eq_refl eq_refl Hrx Hjs eq_refl eq_refl).
  vm_compute in H. discriminate H.
Qed.

(** C2, amended: end-batch sends the pending requests as one array and does
    not match replies to requests.  When the decoded reply is an array, its
    elements are appended to the response list in the order in which they
    appear in the reply; any other reply is appended as the lone element.
    So two responses that arrive in reversed order are returned in reversed
    order. *)
Theorem batch_exit_appends_reply_in_order (w : World) (response : nat)
  (old : list value) (data : bytes) (text : pystr) (rest : list net_event) :
  nth_error (heap w) response = Some old ->
  inbox w = Recv data :: rest ->
  received data text ->
  exists w',
    batch_exit response w = (Returns tt, w')
    /\ wire w' = wire w ++ [VList (_pipeline (self w))]
    /\ nth_error (heap w') response
       = Some (old ++ reply_items (response_of text)).
Proof.
  intros Hold Hin Hrx.
  unfold batch_exit, bind, modify_self, get_self.
  cbn [fst snd self set_self set_batch _pipeline].
  rewrite (execute_payload_recv _ _ data rest text) by (assumption || exact Hin).
  assert (Hext : forall items,
    nth_error (heap_update response (fun l => l ++ items) (heap w)) response
    = Some (old ++ items)).
  { intros items. rewrite heap_update_nth, Hold. reflexivity. }
  destruct (response_of text) eqn:Hr; cbn;
    (eexists; split; [reflexivity|]; split; [reflexivity|]; apply Hext).
Qed.

Lemma batch_exit_appends_reply_in_order_witness :
  let w := two_pending [Recv reversed_reply] in
  exists w',
    batch_exit 0 w = (Returns tt, w')
    /\ wire w' = wire w ++ [VList (_pipeline (self w))]
    /\ nth_error (heap w') 0
       = Some ([] ++ reply_items (response_of reversed_reply)).
Proof.
  intros w.
  apply (batch_exit_appends_reply_in_order w 0 [] reversed_reply
           reversed_reply []).
  - reflexivity.
  - reflexivity.
  - split; [apply Nat.leb_le|]; vm_compute; reflexivity.
Defined.

(* ================================================================== *)
(** * The read of a reply (C4) *)

(** C4: the claim fails on the code.  The peer writes one JSON object in
    three pieces; the pieces together decode to the object, but
    [get_light_state] returns the first piece as a string, prints it as
    invalid, and leaves the other two pieces unread in the socket. *)
Theorem execute_payload_reads_once :
  let w := fresh_client [Recv piece1; Recv piece2; Recv piece3] in
  option_map json_loads (utf8_decode (piece1 ++ piece2 ++ piece3))
  = Some (Some (VDict [(u "id", VStr id0);
                       (u "result",
                        VList [VDict [(u "hsbk",
                                       VList [VInt 0; VInt 0;
                                              VFloat 0.9; VInt 3500]);
                                      (u "label", VStr (u "bulb1"))]])]))
  /\ fst (get_light_state star w) = Returns (VStr piece1)
  /\ stdout (snd (get_light_state star w))
     = [u "received invalid json: " ++ piece1]
  /\ inbox (snd (get_light_state star w)) = [Recv piece2; Recv piece3].
Proof.
  vm_compute. repeat split; reflexivity.
Qed.

(* ================================================================== *)
(** * The command wrappers (C9) *)

Lemma execute_payload_wire (payload : value) (w : World) :
  send_accepted w ->
  wire (snd (_execute_payload payload w)) = wire w ++ [payload].
Proof.
  unfold send_accepted, _execute_payload, bind, socket_send, socket_recv,
    inbox, wire.
  intros H.
  destruct (incoming (_socket (self w))) as [|[| |data] rest] eqn:Hin;
    cbn; rewrite ?Hin; cbn; auto.
  - now elim H.
  - destruct (utf8_decode (firstn RECV_SIZE data)) as [text|]; cbn; auto.
    destruct (json_loads text); cbn; auto.
Qed.

Lemma jsonrpc_call_issues (method : string) (params : value) (w : World) :
  send_accepted w ->
  issues (_jsonrpc_call (VStr (u method)) params) method params w.
Proof.
  intros Hsend. unfold issues.
  destruct (_batch (self w)) eqn:Hb.
  - rewrite jsonrpc_call_batching by exact Hb. split; reflexivity.
  - rewrite jsonrpc_call_single by exact Hb. split.
    + now rewrite execute_payload_wire.
    + now destruct (execute_payload_keeps_session
                      (envelope (VStr (u method)) params (id_at w (drawn w)))
                      (draw w)) as [_ ->].
Qed.

(** C9: each command wrapper builds one envelope whose method is its own
    name and whose params have the shape of the method catalogue:
    positional lists for [set_light_from_hsbk], [set_waveform],
    [get_light_state], [tag], [untag] and [set_label], the mapping
    [{target}] for [power_on], [power_off] and [power_toggle]. *)
Theorem wrappers_params_shape
  (target h s b k t waveform period cycles skew_ratio transient
     a_tag label : value) (w : World) :
  send_accepted w ->
  issues (set_light_from_hsbk target h s b k t) "set_light_from_hsbk"
    (VList [target; h; s; b; k; t]) w
  /\ issues (set_waveform target waveform h s b k period cycles skew_ratio
               transient) "set_waveform"
       (VList [target; waveform; h; s; b; k; period; cycles; skew_ratio;
               transient]) w
  /\ issues (power_on target) "power_on" (VDict [(u "target", target)]) w
  /\ issues (power_off target) "power_off" (VDict [(u "target", target)]) w
  /\ issues (power_toggle target) "power_toggle"
       (VDict [(u "target", target)]) w
  /\ issues (get_light_state target) "get_light_state" (VList [target]) w
  /\ issues (tag target a_tag) "tag" (VList [target; a_tag]) w
  /\ issues (untag target a_tag) "untag" (VList [target; a_tag]) w
  /\ issues (set_label target label) "set_label" (VList [target; label]) w.
Proof.
  intros Hsend.
  repeat split; apply jsonrpc_call_issues; exact Hsend.
Qed.

Lemma wrappers_params_shape_witness :
  wire (snd (set_light_from_hsbk (VStr (u "bulb1")) (VInt 0) (VInt 0)
               (VFloat 1.0) (VInt 3500) (VInt 500) (fresh_client [])))
  = [VDict [(u "method", VStr (u "set_light_from_hsbk"));
            (u "params",
             VList [VStr (u "bulb1"); VInt 0; VInt 0; VFloat 1.0; VInt 3500;
                    VInt 500]);
            (u "jsonrpc", VStr (u "2.0"));
            (u "id", VStr id0)]].
Proof.
  assert (Hsend : send_accepted (fresh_client [])) by (intros H; discriminate H).
  exact (proj1 (proj1 (wrappers_params_shape (VStr (u "bulb1")) (VInt 0)
                         (VInt 0) (VFloat 1.0) (VInt 3500) (VInt 500)
                         VNone VNone VNone VNone VNone VNone VNone
                         (fresh_client []) Hsend))).
Defined.

(* ================================================================== *)
(** * Request envelopes (C8) *)

Lemma hexval_hexdigit (d : N) : (d < 16)%N -> hexval (hexdigit d) = Some d.
Proof.
  intros H. destruct d as [|p]; [reflexivity|].
  do 4 (destruct p as [p|p|]; try reflexivity); exfalso; lia.
Qed.

Lemma hex_digits_length (k : nat) (n : N) : List.length (hex_digits k n) = k.
Proof. induction k as [|k IH]; cbn [hex_digits List.length]; congruence. Qed.

Lemma unhex_hex_digits (k : nat) (n acc : N) :
  unhex acc (hex_digits k n) = (acc * 16 ^ N.of_nat k + n mod 16 ^ N.of_nat k)%N.
Proof.
  revert acc. induction k as [|k IH]; intros acc.
  - cbn [hex_digits unhex]. change (16 ^ N.of_nat 0)%N with 1%N.
    rewrite N.mod_1_r. lia.
  - cbn [hex_digits unhex].
    change 15%N with (N.ones 4).
    rewrite N.land_ones, N.shiftr_div_pow2, N.pow_mul_r.
    change (2 ^ 4)%N with 16%N. change (2 ^ 4)%N with 16%N.
    rewrite hexval_hexdigit by (apply N.mod_upper_bound; discriminate).
    rewrite IH, Nat2N.inj_succ, N.pow_succ_r'.
    rewrite (N.mul_comm 16 (16 ^ N.of_nat k)), N.Div0.mod_mul_r. ring.
Qed.

Lemma hex_digits_inj (n m : N) :
  (n < 2 ^ 128)%N -> (m < 2 ^ 128)%N ->
  hex_digits 32 n = hex_digits 32 m -> n = m.
Proof.
  intros Hn Hm H. apply (f_equal (unhex 0)) in H.
  rewrite !unhex_hex_digits in H.
  change (16 ^ N.of_nat 32)%N with (2 ^ 128)%N in H.
  rewrite !N.mod_small in H by assumption. lia.
Qed.

Lemma ungroup_uuid_str (n : N) : ungroup (uuid_str n) = hex_digits 32 n.
Proof.
  unfold uuid_str. pose proof (hex_digits_length 32 n) as Hlen.
  generalize dependent (hex_digits 32 n). intros l Hlen.
  do 32 (destruct l as [|? l]; [discriminate Hlen|]).
  destruct l; [reflexivity | discriminate Hlen].
Qed.

Lemma uuid_str_inj (n m : N) :
  (n < 2 ^ 128)%N -> (m < 2 ^ 128)%N -> uuid_str n = uuid_str m -> n = m.
Proof.
  intros Hn Hm H. apply hex_digits_inj; try assumption.
  rewrite <- !ungroup_uuid_str. now rewrite H.
Qed.

Lemma uuid_str_nonempty (n : N) : uuid_str n <> [].
Proof.
  intros H. apply (f_equal (@List.length N)) in H.
  unfold uuid_str in H. rewrite !length_app in H. cbn [List.length] in H. lia.
Qed.

Lemma log2_below (x : N) : (x < 2 ^ 128)%N -> (N.log2 x < 128)%N.
Proof.
  intros H. destruct (N.eq_dec x 0) as [->|Hx]; [reflexivity|].
  apply N.log2_lt_pow2; [lia | exact H].
Qed.

Lemma uuid4_of_random_bound (r : N) : (uuid4_of_random r < 2 ^ 128)%N.
Proof.
  unfold uuid4_of_random.
  set (a := N.land r (N.ones 128)).
  assert (Ha : (N.log2 a < 128)%N).
  { apply log2_below. subst a. rewrite N.land_ones.
    apply N.mod_upper_bound. discriminate. }
  set (b := N.ldiff a (N.shiftl 49152 48)).
  assert (Hb : (N.log2 b < 128)%N).
  { apply N.le_lt_trans with (N.log2 a); [|exact Ha].
    apply N.log2_le_mono, N.ldiff_le_l. }
  set (c := N.lor b (N.shiftl 32768 48)).
  assert (Hc : (N.log2 c < 128)%N).
  { subst c. rewrite N.log2_lor.
    apply N.max_lub_lt; [exact Hb | reflexivity]. }
  set (d := N.ldiff c (N.shiftl 61440 64)).
  assert (Hd : (N.log2 d < 128)%N).
  { apply N.le_lt_trans with (N.log2 c); [|exact Hc].
    apply N.log2_le_mono, N.ldiff_le_l. }
  apply N.log2_lt_pow2.
  - apply N.neq_0_lt_0. intros H. apply N.lor_eq_0_iff in H.
    destruct H as [_ H]. discriminate H.
  - rewrite N.log2_lor. apply N.max_lub_lt; [exact Hd | reflexivity].
Qed.

Lemma id_at_inj (w : World) (i j : nat) :
  id_at w i = id_at w j ->
  uuid4_of_random (urandom w i) = uuid4_of_random (urandom w j).
Proof.
  apply uuid_str_inj; apply uuid4_of_random_bound.
Qed.

(** The envelopes of a run of [_make_payload]: one draw of entropy each. *)
Lemma map_M_make_payload (reqs : list (value * value)) (w : World) :
  exists w',
    map_M (fun r => _make_payload (fst r) (snd r)) reqs w
    = (Returns
         (map (fun ri => envelope (fst (fst ri)) (snd (fst ri)) (id_at w (snd ri)))
              (combine reqs (seq (drawn w) (List.length reqs)))),
       w')
    /\ urandom w' = urandom w.
Proof.
  revert w. induction reqs as [|[m p] reqs IH]; intros w.
  - eexists. split; reflexivity.
  - destruct (IH (draw w)) as (w' & Hrun & Hsame).
    exists w'. split; [|exact Hsame].
    cbn [map_M]. unfold bind at 1. rewrite make_payload_eq.
    unfold bind at 1. rewrite Hrun. reflexivity.
Qed.

Lemma disjoint_bits (a b n : N) :
  N.land a b = 0%N -> N.testbit a n && N.testbit b n = false.
Proof. intros H. rewrite <- N.land_spec, H. apply N.bits_0. Qed.

(** A version-4 UUID is the kept bits of its draw with the two fields set. *)
Lemma uuid4_of_random_fields (r : N) :
  uuid4_of_random r
  = N.lor (random_bits r) (N.lor (N.shiftl 32768 48) (N.shiftl 4 76)).
Proof.
  unfold uuid4_of_random, random_bits.
  assert (H23 : N.land (N.shiftl 32768 48) (N.shiftl 61440 64) = 0%N)
    by (vm_compute; reflexivity).
  set (a := N.land r (N.ones 128)).
  set (c1 := N.shiftl 49152 48) in *. set (c2 := N.shiftl 32768 48) in *.
  set (c3 := N.shiftl 61440 64) in *. set (c4 := N.shiftl 4 76) in *.
  apply N.bits_inj. intros n.
  repeat (rewrite N.lor_spec || rewrite N.ldiff_spec).
  pose proof (disjoint_bits c2 c3 n H23) as Hd.
  destruct (N.testbit a n), (N.testbit c1 n), (N.testbit c2 n),
    (N.testbit c3 n), (N.testbit c4 n); cbn in *; congruence.
Qed.

Lemma random_bits_of_uuid4 (r : N) :
  random_bits r
  = N.ldiff (uuid4_of_random r)
      (N.lor (N.shiftl 49152 48) (N.shiftl 61440 64)).
Proof.
  rewrite uuid4_of_random_fields. unfold random_bits.
  assert (Hin : N.ldiff (N.lor (N.shiftl 32768 48) (N.shiftl 4 76))
                  (N.lor (N.shiftl 49152 48) (N.shiftl 61440 64)) = 0%N)
    by (vm_compute; reflexivity).
  set (a := N.land r (N.ones 128)).
  set (m := N.lor (N.shiftl 49152 48) (N.shiftl 61440 64)) in *.
  set (k := N.lor (N.shiftl 32768 48) (N.shiftl 4 76)) in *.
  apply N.bits_inj. intros n.
  repeat (rewrite N.lor_spec || rewrite N.ldiff_spec).
  assert (Hk : N.testbit k n && negb (N.testbit m n) = false).
  { rewrite <- N.ldiff_spec, Hin. apply N.bits_0. }
  destruct (N.testbit a n), (N.testbit m n), (N.testbit k n);
    cbn in *; congruence.
Qed.

(** Two draws give the same UUID exactly when they agree on the bits that
    [uuid4] keeps. *)
Lemma uuid4_of_random_same (r1 r2 : N) :
  uuid4_of_random r1 = uuid4_of_random r2 <-> random_bits r1 = random_bits r2.
Proof.
  split; intros H.
  - now rewrite !random_bits_of_uuid4, H.
  - now rewrite !uuid4_of_random_fields, H.
Qed.

Lemma id_at_same (w : World) (i j : nat) :
  id_at w i = id_at w j
  <-> random_bits (urandom w i) = random_bits (urandom w j).
Proof.
  rewrite <- uuid4_of_random_same. split.
  - apply id_at_inj.
  - unfold id_at. now intros ->.
Qed.

Lemma NoDup_map_same {A B C} (f : A -> B) (g : A -> C) (l : list A) :
  (forall x y, f x = f y <-> g x = g y) ->
  NoDup (map f l) <-> NoDup (map g l).
Proof.
  intros Hsame. induction l as [|a l IH]; cbn [map].
  - split; constructor.
  - rewrite !NoDup_cons_iff, IH.
    assert (Hin : In (f a) (map f l) <-> In (g a) (map g l)).
    { rewrite !in_map_iff. split; intros (y & Hy & Hl); exists y;
        (split; [apply Hsame; exact Hy | exact Hl]). }
    rewrite Hin. reflexivity.
Qed.

(** Two draws that differ only in the version field give the same UUID. *)
Example version_bits_are_overwritten :
  0%N <> (2 ^ 78)%N /\ uuid4_of_random 0 = uuid4_of_random (2 ^ 78).
Proof. split; [discriminate | vm_compute; reflexivity]. Qed.

(** C8, as stated, fails: the id is a random UUID, and an entropy source
    that hands out the same octets twice gives two envelopes the same
    id. *)
Lemma repeated_entropy_repeats_id : ~ envelope_ids_unique.
Proof.
  intros H.
  specialize (H [(VStr (u "power_on"), VDict [(u "target", star)]);
                 (VStr (u "power_off"), VDict [(u "target", star)])]
                (stuck_client [])).
  vm_compute in H.
  inversion H as [|? ? Hnotin _]. apply Hnotin. left. reflexivity.
Qed.

(** C8, amended: every envelope built by [_make_payload] holds exactly the
    method and the params it was given, [jsonrpc] equal to "2.0", and as id
    the 36 characters of a version-4 UUID made from 16 random octets, so
    never an empty id.  The envelopes built one after the other have
    pairwise different ids exactly when their draws of entropy differ
    pairwise on the 122 bits that [uuid4] keeps: the ids are as unique as
    the entropy, and two draws that agree on those bits share an id. *)
Theorem make_payload_envelopes (reqs : list (value * value)) (w : World) :
  exists (ids : list pystr) (w' : World),
    map_M (fun r => _make_payload (fst r) (snd r)) reqs w
    = (Returns
         (map (fun ri => VDict [(u "method", fst (fst ri));
                                (u "params", snd (fst ri));
                                (u "jsonrpc", VStr (u "2.0"));
                                (u "id", VStr (snd ri))])
              (combine reqs ids)),
       w')
    /\ List.length ids = List.length reqs
    /\ Forall (fun id => List.length id = 36%nat) ids
    /\ (NoDup ids
        <-> NoDup (map random_bits (next_draws w (List.length reqs)))).
Proof.
  destruct (map_M_make_payload reqs w) as (w' & Hrun & _).
  exists (map (id_at w) (seq (drawn w) (List.length reqs))), w'.
  split; [|split; [|split]].
  - rewrite Hrun. f_equal. f_equal.
    generalize (seq (drawn w) (List.length reqs)). clear.
    induction reqs as [|r reqs IH]; intros [|i l]; cbn [combine map];
      try reflexivity.
    now rewrite IH.
  - now rewrite length_map, length_seq.
  - apply Forall_map, Forall_forall. intros i _.
    unfold id_at, uuid_str. rewrite !length_app, !length_firstn, !length_skipn.
    rewrite hex_digits_length. reflexivity.
  - unfold next_draws. rewrite map_map.
    apply (NoDup_map_same (id_at w) (fun i => random_bits (urandom w i))).
    intros i j. apply id_at_same.
Qed.

(* ================================================================== *)
(** * Adjusting the brightness (C7, C10) *)

Lemma wire_exchanged (payload : value) (rest : list net_event) (text : pystr)
  (w : World) :
  wire (exchanged payload rest text (draw w)) = wire w ++ [payload].
Proof. reflexivity. Qed.

Lemma write_envelopes_exchanged (payload : value) (rest : list net_event)
  (text : pystr) (w : World) (i : nat) (paramss : list value) :
  write_envelopes (exchanged payload rest text (draw w)) i paramss
  = write_envelopes w i paramss.
Proof.
  revert i. induction paramss as [|params paramss IH]; intros i;
    cbn [write_envelopes]; [reflexivity|].
  rewrite IH. reflexivity.
Qed.

(** One turn of the loop on a well-formed device whose write is
    answered. *)
Lemma adjust_bulb_writes (adjustment bulb params : value) (w : World)
  (data : bytes) (rest : list net_event) (text : pystr) :
  adjusted adjustment bulb params ->
  _batch (self w) = false ->
  inbox w = Recv data :: rest ->
  received data text ->
  adjust_bulb adjustment bulb w
  = (Returns tt,
     exchanged
       (envelope (VStr (u "set_light_from_hsbk")) params (id_at w (drawn w)))
       rest text (draw w)).
Proof.
  intros (hsbk & label & h & s & b & k & b' & Hhsbk & Hun & Hlabel & Hclamp & ->)
    Hb Hin Hdata.
  unfold adjust_bulb.
  unfold bind at 1. rewrite Hhsbk. cbn [lift ret].
  unfold bind at 1. rewrite Hun. cbn [lift ret].
  unfold bind at 1. rewrite Hclamp. cbn [lift ret].
  unfold bind at 1. rewrite Hlabel. cbn [lift ret].
  unfold bind at 1. unfold set_light_from_hsbk.
  rewrite (jsonrpc_call_recv _ _ w data rest text Hb Hin Hdata).
  reflexivity.
Qed.

(** The loop over well-formed devices, in single mode, on a network that
    answers every write: one write per device, in order. *)
Lemma for_each_adjust_bulb (adjustment : value) (bulbs paramss : list value) :
  Forall2 (adjusted adjustment) bulbs paramss ->
  forall (w : World) (replies : list bytes) (rest : list net_event),
    _batch (self w) = false ->
    inbox w = map Recv replies ++ rest ->
    all_received replies ->
    List.length replies = List.length bulbs ->
    exists w',
      for_each bulbs (adjust_bulb adjustment) w = (Returns tt, w')
      /\ wire w' = wire w ++ write_envelopes w (drawn w) paramss
      /\ inbox w' = rest.
Proof.
  induction 1 as [|bulb params bulbs paramss Hadj _ IH];
    intros w replies rest Hb Hin Hrx Hlen.
  - destruct replies; [|discriminate Hlen].
    exists w. cbn. rewrite app_nil_r. auto.
  - destruct replies as [|data replies]; [discriminate Hlen|].
    inversion Hrx as [|? ? [text Hdata] Hrx']; subst.
    cbn [for_each]. unfold bind at 1.
    rewrite (adjust_bulb_writes adjustment bulb params w data
               (map Recv replies ++ rest) text Hadj Hb Hin Hdata).
    match goal with
    | |- context [for_each bulbs _ ?w1] =>
      destruct (IH w1 replies rest) as (w' & Hrun & Hwire & Hrest);
        [exact Hb | reflexivity | exact Hrx'
        | cbn [List.length] in Hlen; congruence |]
    end.
    exists w'. rewrite Hrun. split; [reflexivity|]. split; [|exact Hrest].
    rewrite Hwire, wire_exchanged, write_envelopes_exchanged.
    cbn [write_envelopes]. rewrite <- app_assoc. reflexivity.
Qed.

(** *** The code's expression against the specification's clamp *)

Lemma float_lt_one_int (z : Z) : float_lt 1.0 (VInt z) = Ok (Z.ltb 1 z).
Proof.
  unfold float_lt, float_cmp_int.
  change (Prim2SF 1.0) with (S754_finite false 4503599627370496 (-52)).
  cbv beta iota. change (2 ^ Z.pos 52) with 4503599627370496.
  f_equal.
  destruct (Z.compare_spec 4503599627370496 (z * 4503599627370496));
    destruct (Z.ltb_spec 1 z); try reflexivity; lia.
Qed.

Lemma float_gt_zero_int (z : Z) : float_gt 0.0 (VInt z) = Ok (Z.ltb z 0).
Proof.
  unfold float_gt, float_cmp_int.
  change (Prim2SF 0.0) with (S754_zero false).
  cbv beta iota. f_equal.
  destruct (Z.compare_spec 0 z); destruct (Z.ltb_spec z 0);
    try reflexivity; lia.
Qed.

(** No float is both below zero and above one. *)
Lemma float_below_not_above (f : float) :
  (f <? 0)%float = true -> (1 <? f)%float = false.
Proof.
  rewrite !ltb_spec.
  change (Prim2SF 0) with (S754_zero false).
  change (Prim2SF 1) with (S754_finite false 4503599627370496 (-52)).
  unfold SFltb, SFcompare.
  destruct (Prim2SF f) as [s|s| |s m e]; try destruct s;
    try discriminate; reflexivity.
Qed.

Lemma float_of_int_error (z : Z) (e : exn) :
  float_of_int z = Err e -> e = OverflowError.
Proof.
  unfold float_of_int.
  destruct (binary_normalize prec emax z 0 false); congruence.
Qed.

Lemma min_max_float (f : float) :
  match py_min (VFloat f) 1.0 with
  | Err e => Err e
  | Ok y => py_max y 0.0
  end = Ok (number_value (cut01 (Float f))).
Proof.
  unfold py_min, py_max, float_lt, float_gt, cut01, below_zero, above_one.
  destruct (1 <? f)%float eqn:Habove.
  - change (0 <? 1)%float with true. change (1 <? 0)%float with false.
    destruct (f <? 0)%float eqn:Hbelow; [|reflexivity].
    apply float_below_not_above in Hbelow. congruence.
  - destruct (f <? 0)%float; reflexivity.
Qed.

Lemma min_max_int (z : Z) :
  match py_min (VInt z) 1.0 with
  | Err e => Err e
  | Ok y => py_max y 0.0
  end = Ok (number_value (cut01 (Int z))).
Proof.
  unfold py_min, cut01, below_zero, above_one.
  rewrite float_lt_one_int.
  destruct (Z.ltb_spec 1 z) as [Habove|Habove].
  - unfold py_max, float_gt. change (1 <? 0)%float with false.
    destruct (Z.ltb_spec z 0); [lia | reflexivity].
  - unfold py_max. rewrite float_gt_zero_int.
    destruct (Z.ltb_spec z 0); reflexivity.
Qed.

(** The expression of the code, [max(min(b + delta, 1.0), 0.0)], is the
    clamp of the specification on the sum of the two numbers, and raises
    [OverflowError] when the sum has none. *)
Lemma clamp_brightness_cut (b delta : number) :
  clamp_brightness (number_value b) (number_value delta)
  = match number_sum b delta with
    | Some x => Ok (number_value (cut01 x))
    | None => Err OverflowError
    end.
Proof.
  unfold clamp_brightness.
  destruct b as [x|x], delta as [y|y]; cbn [number_value py_add number_sum].
  - apply min_max_int.
  - unfold add_int_float.
    destruct (float_of_int x) as [g|e] eqn:Hg.
    + apply min_max_float.
    + now rewrite (float_of_int_error _ _ Hg).
  - unfold add_int_float.
    destruct (float_of_int y) as [g|e] eqn:Hg.
    + apply min_max_float.
    + now rewrite (float_of_int_error _ _ Hg).
  - apply min_max_float.
Qed.

Lemma brightened_adjusted (delta : number) (bulb params : value) :
  brightened delta bulb params ->
  adjusted (number_value delta) bulb params.
Proof.
  intros (label & h & s & k & b & x & Hhsbk & Hlabel & Hsum & ->).
  exists (VList [h; s; number_value b; k]), label, h, s, (number_value b), k,
    (number_value (cut01 x)).
  repeat split; try assumption.
  rewrite clamp_brightness_cut, Hsum. reflexivity.
Qed.

(** The example of the specification: [adjust_brightness("bulb1", 0.2)] on
    the state hue 0, saturation 0, brightness 0.9, kelvin 3500. *)
Example adjust_brightness_bulb1 :
  wire (snd (adjust_brightness (VStr (u "bulb1")) (VFloat 0.2)
               (fresh_client [Recv bulb1_state; Recv bulb1_ack])))
  = [envelope (VStr (u "get_light_state")) (VList [VStr (u "bulb1")]) id0;
     envelope (VStr (u "set_light_from_hsbk"))
       (VList [VStr (u "bulb1"); VInt 0; VInt 0; VFloat 1.0; VInt 3500;
               VInt 500]) id1].
Proof. vm_compute. reflexivity. Qed.

(** C7: in single mode, when [get_light_state] answers with a list of
    devices under [result], each with a label and the numbers hue,
    saturation, brightness and kelvin, and every write is answered,
    [adjust_brightness] with the number [delta] issues the read and then
    exactly one [set_light_from_hsbk] per device, in order, with the
    device's own label, hue, saturation and kelvin, the brightness
    [clamp(b + delta, 0.0, 1.0)] and a duration of 500; it returns
    [None]. *)
Theorem adjust_brightness_writes (target : value) (delta : number) (w : World)
  (data : bytes) (text : pystr) (reply : value) (bulbs paramss : list value)
  (replies : list bytes) (rest : list net_event) :
  _batch (self w) = false ->
  inbox w = Recv data :: map Recv replies ++ rest ->
  received data text ->
  json_loads text = Some reply ->
  getitem reply (u "result") = Ok (VList bulbs) ->
  Forall2 (brightened delta) bulbs paramss ->
  all_received replies ->
  List.length replies = List.length bulbs ->
  exists w',
    adjust_brightness target (number_value delta) w = (Returns VNone, w')
    /\ wire w'
       = wire w
         ++ envelope (VStr (u "get_light_state")) (VList [target])
              (id_at w (drawn w))
         :: write_envelopes w (S (drawn w)) paramss.
Proof.
  intros Hb Hin Hdata Hjs Hres Hbright Hrx Hlen.
  assert (Hadj : Forall2 (adjusted (number_value delta)) bulbs paramss).
  { revert Hbright. apply Forall2_impl. apply brightened_adjusted. }
  unfold adjust_brightness, get_light_state. unfold bind at 1.
  rewrite (jsonrpc_call_recv _ _ w data (map Recv replies ++ rest) text Hb Hin Hdata).
  unfold response_of. rewrite Hjs.
  unfold bind at 1. rewrite Hres. cbn [lift ret py_iter].
  unfold bind at 1. cbn [ret]. unfold bind at 1.
  match goal with
  | |- context [for_each bulbs _ ?w1] =>
    destruct (for_each_adjust_bulb (number_value delta) bulbs paramss Hadj
                w1 replies rest) as (w' & Hrun & Hwire & _);
      [exact Hb | reflexivity | exact Hrx | exact Hlen |]
  end.
  exists w'. rewrite Hrun. split; [reflexivity|].
  rewrite Hwire, wire_exchanged, write_envelopes_exchanged.
  rewrite <- app_assoc. reflexivity.
Qed.

Lemma adjust_brightness_writes_witness :
  exists w',
    adjust_brightness star (VFloat 0.2)
      (fresh_client [Recv two_lamps_state; Recv bulb1_ack; Recv lamp_ack])
    = (Returns VNone, w')
    /\ wire w'
       = [envelope (VStr (u "get_light_state")) (VList [star]) id0;
          envelope (VStr (u "set_light_from_hsbk"))
            (VList [VStr (u "desk"); VInt 120; VFloat 0.5; VFloat 1.0;
                    VInt 3500; VInt 500]) id1;
          envelope (VStr (u "set_light_from_hsbk"))
            (VList [VStr (u "sofa"); VFloat 240.5; VInt 1; VFloat 0.2;
                    VInt 2700; VInt 500])
            (u "00000000-0000-4000-8000-000000000002")].
Proof.
  assert (Hrx : forall d, Nat.leb (List.length d) RECV_SIZE = true ->
                          utf8_decode d = Some d -> received d d).
  { intros d H1 H2. split; [apply Nat.leb_le; exact H1 | exact H2]. }
  eassert (Hjs : json_loads two_lamps_state
                 = Some (VDict [_; (_, VList [_; _])]))
    by (vm_compute; reflexivity).
  refine (adjust_brightness_writes star (Float 0.2)
            (fresh_client [Recv two_lamps_state; Recv bulb1_ack; Recv lamp_ack])
            two_lamps_state two_lamps_state _ _
            [VList [VStr (u "desk"); VInt 120; VFloat 0.5; VFloat 1.0;
                    VInt 3500; VInt 500];
             VList [VStr (u "sofa"); VFloat 240.5; VInt 1; VFloat 0.2;
                    VInt 2700; VInt 500]]
            [bulb1_ack; lamp_ack] []
            eq_refl eq_refl (Hrx two_lamps_state eq_refl eq_refl) Hjs
            eq_refl _ _ eq_refl).
  - constructor; [|constructor; [|constructor]].
    + exists (VStr (u "desk")), (VInt 120), (VFloat 0.5), (VInt 3500),
        (Float 0.9), (Float (0.9 + 0.2)).
      repeat split; vm_compute; reflexivity.
    + exists (VStr (u "sofa")), (VFloat 240.5), (VInt 1), (VInt 2700),
        (Int 0), (Float 0.2).
      repeat split; vm_compute; reflexivity.
  - constructor; [|constructor; [|constructor]].
    + exists bulb1_ack. apply Hrx; vm_compute; reflexivity.
    + exists lamp_ack. apply Hrx; vm_compute; reflexivity.
Defined.

Lemma getitem_error (v : value) (k : pystr) (e : exn) :
  getitem v k = Err e -> builtin_error e.
Proof.
  unfold builtin_error.
  destruct v; cbn [getitem]; try (intros [= <-]; tauto).
  destruct (dict_get k d); [discriminate | intros [= <-]; tauto].
Qed.

Lemma py_iter_error (v : value) (e : exn) : py_iter v = Err e -> e = TypeError.
Proof. destruct v; cbn [py_iter]; congruence. Qed.

Lemma unpack4_error (v : value) (e : exn) :
  unpack4 v = Err e -> builtin_error e.
Proof.
  unfold unpack4, builtin_error.
  destruct (py_iter v) as [l|e'] eqn:Hit.
  - destruct l as [|a [|b [|c [|d [|x l]]]]]; try discriminate;
      intros [= <-]; tauto.
  - intros [= <-]. apply py_iter_error in Hit. tauto.
Qed.

Lemma unpack4_has_four (v : value) :
  has_four v = true <-> exists h s b k, unpack4 v = Ok (h, s, b, k).
Proof.
  unfold has_four, unpack4.
  destruct (py_iter v) as [l|e].
  - destruct l as [|a [|b [|c [|d [|x l]]]]];
      (split; [try discriminate | try (intros (? & ? & ? & ? & [=]))]).
    intros _. now exists a, b, c, d.
    reflexivity.
  - split; [discriminate | intros (? & ? & ? & ? & [=])].
Qed.

Lemma add_int_float_error (z : Z) (f : float) (swap : bool) (e : exn) :
  add_int_float z f swap = Err e -> e = OverflowError.
Proof.
  unfold add_int_float, float_of_int.
  destruct (binary_normalize prec emax z 0 false); congruence.
Qed.

Lemma py_add_error (a b : value) (e : exn) :
  py_add a b = Err e -> builtin_error e.
Proof.
  unfold builtin_error.
  destruct a, b; cbn [py_add]; try discriminate;
    try (intros [= <-]; tauto);
    intros H; apply add_int_float_error in H; tauto.
Qed.

Lemma py_min_error (x : value) (c : float) (e : exn) :
  py_min x c = Err e -> builtin_error e.
Proof.
  unfold py_min, builtin_error.
  destruct x; cbn [float_lt];
    repeat match goal with
           | |- context [if ?b then _ else _] => destruct b
           | |- context [match ?b with true => _ | false => _ end] => destruct b
           end;
    try discriminate; intros [= <-]; tauto.
Qed.

Lemma py_max_error (y : value) (c : float) (e : exn) :
  py_max y c = Err e -> builtin_error e.
Proof.
  unfold py_max, builtin_error.
  destruct y; cbn [float_gt];
    repeat match goal with
           | |- context [if ?b then _ else _] => destruct b
           | |- context [match ?b with true => _ | false => _ end] => destruct b
           end;
    try discriminate; intros [= <-]; tauto.
Qed.

Lemma clamp_brightness_error (b adjustment : value) (e : exn) :
  clamp_brightness b adjustment = Err e -> builtin_error e.
Proof.
  unfold clamp_brightness.
  destruct (py_add b adjustment) as [x|e1] eqn:Hadd.
  - destruct (py_min x 1.0) as [y|e2] eqn:Hmin.
    + apply py_max_error.
    + intros [= <-]. exact (py_min_error _ _ _ Hmin).
  - intros [= <-]. exact (py_add_error _ _ _ Hadd).
Qed.

(** A value that is not a device stops the loop before its own write. *)
Lemma adjust_bulb_misshaped (adjustment bulb : value) (w : World) :
  device_shape bulb = false ->
  exists e, adjust_bulb adjustment bulb w = (Raises e, w) /\ builtin_error e.
Proof.
  unfold device_shape, adjust_bulb. intros Hshape.
  unfold bind at 1.
  destruct (getitem bulb (u "hsbk")) as [hsbk|e] eqn:Hhsbk; cbn [lift].
  2:{ exists e. split; [reflexivity | exact (getitem_error _ _ _ Hhsbk)]. }
  cbn [ret]. unfold bind at 1.
  destruct (unpack4 hsbk) as [[[[h s] b] k]|e] eqn:Hun; cbn [lift].
  2:{ exists e. split; [reflexivity | exact (unpack4_error _ _ Hun)]. }
  cbn [ret]. unfold bind at 1.
  destruct (clamp_brightness b adjustment) as [b'|e] eqn:Hclamp; cbn [lift].
  2:{ exists e. split; [reflexivity | exact (clamp_brightness_error _ _ _ Hclamp)]. }
  cbn [ret]. unfold bind at 1.
  destruct (getitem bulb (u "label")) as [label|e] eqn:Hlabel; cbn [lift].
  2:{ exists e. split; [reflexivity | exact (getitem_error _ _ _ Hlabel)]. }
  assert (Hfour : has_four hsbk = true)
    by (apply unpack4_has_four; now exists h, s, b, k).
  congruence.
Qed.

(** A device either stops the loop before its own write, or has a write
    to issue. *)
Lemma adjust_bulb_shaped (adjustment bulb : value) (w : World) :
  device_shape bulb = true ->
  (exists e, adjust_bulb adjustment bulb w = (Raises e, w) /\ builtin_error e)
  \/ (exists params, adjusted adjustment bulb params).
Proof.
  unfold device_shape. intros Hshape.
  destruct (getitem bulb (u "label")) as [label|] eqn:Hlabel; [|discriminate].
  destruct (getitem bulb (u "hsbk")) as [hsbk|] eqn:Hhsbk; [|discriminate].
  apply unpack4_has_four in Hshape. destruct Hshape as (h & s & b & k & Hun).
  destruct (clamp_brightness b adjustment) as [b'|e] eqn:Hclamp.
  - right. exists (VList [label; h; s; b'; k; VInt 500]).
    exists hsbk, label, h, s, b, k, b'. auto.
  - left. exists e. split; [|exact (clamp_brightness_error _ _ _ Hclamp)].
    unfold adjust_bulb. unfold bind at 1. rewrite Hhsbk. cbn [lift ret].
    unfold bind at 1. rewrite Hun. cbn [lift ret].
    unfold bind at 1. rewrite Hclamp. reflexivity.
Qed.

(** The loop over items of which one is not a device: it raises, having
    issued writes for devices before that one only. *)
Lemma for_each_misshaped (adjustment : value) (items : list value) :
  forallb device_shape items = false ->
  forall (w : World) (replies : list bytes) (rest : list net_event),
    _batch (self w) = false ->
    inbox w = map Recv replies ++ rest ->
    all_received replies ->
    List.length replies = shaped_prefix items ->
    exists e w' writes,
      for_each items (adjust_bulb adjustment) w = (Raises e, w')
      /\ builtin_error e
      /\ wire w' = wire w ++ writes
      /\ (List.length writes <= shaped_prefix items)%nat.
Proof.
  induction items as [|bulb items IH]; [discriminate|].
  intros Hbad w replies rest Hb Hin Hrx Hlen.
  cbn [forallb shaped_prefix] in *.
  destruct (device_shape bulb) eqn:Hshape.
  - destruct (adjust_bulb_shaped adjustment bulb w Hshape)
      as [(e & Hrun & He) | (params & Hadj)].
    + exists e, w, []. cbn [for_each]. unfold bind at 1. rewrite Hrun.
      rewrite app_nil_r. cbn [List.length]. repeat split; auto. lia.
    + destruct replies as [|data replies]; [discriminate Hlen|].
      inversion Hrx as [|? ? [text Hdata] Hrx']; subst.
      cbn [for_each]. unfold bind at 1.
      rewrite (adjust_bulb_writes adjustment bulb params w data
                 (map Recv replies ++ rest) text Hadj Hb Hin Hdata).
      match goal with
      | |- context [for_each items _ ?w1] =>
        destruct (IH Hbad w1 replies rest)
          as (e & w' & writes & Hrun & He & Hwire & Hcount);
          [exact Hb | reflexivity | exact Hrx'
          | cbn [List.length] in Hlen; congruence |]
      end.
      exists e, w'. eexists. rewrite Hrun.
      split; [reflexivity|]. split; [exact He|].
      rewrite Hwire, wire_exchanged, <- app_assoc.
      split; [reflexivity|]. cbn [List.length app]. lia.
  - destruct (adjust_bulb_misshaped adjustment bulb w Hshape) as (e & Hrun & He).
    exists e, w, []. cbn [for_each]. unfold bind at 1. rewrite Hrun.
    rewrite app_nil_r. cbn [List.length]. repeat split; auto.
Qed.

(** C10, as stated, fails: when the second device of the reply is broken,
    the write for the first device is on the wire before the failure. *)
Lemma write_before_failure : ~ misshaped_reply_fails_before_any_write.
Proof.
  intros H.
  assert (Hrx : received second_bulb_broken second_bulb_broken).
  { split; [apply Nat.leb_le|]; vm_compute; reflexivity. }
  destruct (H (VStr (u "*")) (VFloat 0.2)
              (fresh_client [Recv second_bulb_broken; Recv bulb1_ack])
              second_bulb_broken second_bulb_broken [Recv bulb1_ack]
              eq_refl eq_refl Hrx eq_refl) as (e & w' & Hrun & Hwire).
  apply (f_equal snd) in Hrun. cbn [snd] in Hrun. subst w'.
  vm_compute in Hwire. discriminate Hwire.
Qed.

(** C10, amended: [adjust_brightness] is partial.  In single mode, when the
    reply to [get_light_state] is not a mapping with a [result] key holding
    an iterable of devices (each with a [label] key and an [hsbk] value of
    exactly four components), and the writes that precede the failure are
    answered, [adjust_brightness] raises one of [KeyError], [TypeError],
    [ValueError], [OverflowError]; it issues no write for the first item
    that is not a device nor for any later one, so at most one write per
    device before that item, and no write at all when the reply has no
    iterable [result] (an error envelope, a reply passed through as raw
    text) or when its first item is not a device. *)
Theorem adjust_brightness_misshaped_reply (target adjustment : value)
  (w : World) (data : bytes) (text : pystr) (replies : list bytes)
  (rest : list net_event) :
  _batch (self w) = false ->
  inbox w = Recv data :: map Recv replies ++ rest ->
  received data text ->
  reply_shape (response_of text) = false ->
  all_received replies ->
  List.length replies = reply_prefix (response_of text) ->
  exists e w' writes,
    adjust_brightness target adjustment w = (Raises e, w')
    /\ builtin_error e
    /\ wire w'
       = wire w
         ++ envelope (VStr (u "get_light_state")) (VList [target])
              (id_at w (drawn w))
         :: writes
    /\ (List.length writes <= reply_prefix (response_of text))%nat.
Proof.
  intros Hb Hin Hdata Hshape Hrx Hlen.
  unfold adjust_brightness, get_light_state. unfold bind at 1.
  rewrite (jsonrpc_call_recv _ _ w data (map Recv replies ++ rest) text
             Hb Hin Hdata).
  unfold reply_shape, reply_prefix, devices_of in *.
  set (reply := response_of text) in *.
  set (read := envelope _ _ _).
  unfold bind at 1.
  destruct (getitem reply (u "result")) as [bulbs|e] eqn:Hres; cbn [lift].
  2:{ exists e. eexists. exists []. split; [reflexivity|].
      split; [exact (getitem_error _ _ _ Hres)|].
      split; [apply wire_exchanged | cbn; lia]. }
  cbn [ret]. unfold bind at 1.
  destruct (py_iter bulbs) as [items|e] eqn:Hit; cbn [lift].
  2:{ exists e. eexists. exists []. split; [reflexivity|].
      split; [apply py_iter_error in Hit; unfold builtin_error; tauto|].
      split; [apply wire_exchanged | cbn; lia]. }
  cbn [ret]. unfold bind at 1.
  match goal with
  | |- context [for_each items _ ?w1] =>
    destruct (for_each_misshaped adjustment items Hshape w1 replies rest)
      as (e & w' & writes & Hrun & He & Hwire & Hcount);
      [exact Hb | reflexivity | exact Hrx | exact Hlen |]
  end.
  exists e, w', writes. rewrite Hrun.
  split; [reflexivity|]. split; [exact He|].
  rewrite Hwire, wire_exchanged, <- app_assoc. split; [reflexivity | exact Hcount].
Qed.

Lemma adjust_brightness_misshaped_reply_witness :
  exists e w' writes,
    adjust_brightness star (VFloat 0.2) (fresh_client [Recv error_reply])
    = (Raises e, w')
    /\ builtin_error e
    /\ wire w'
       = wire (fresh_client [Recv error_reply])
         ++ envelope (VStr (u "get_light_state")) (VList [star]) id0 :: writes
    /\ (List.length writes <= 0)%nat.
Proof.
  apply (adjust_brightness_misshaped_reply star (VFloat 0.2)
           (fresh_client [Recv error_reply]) error_reply error_reply [] []).
  - reflexivity.
  - reflexivity.
  - split; [apply Nat.leb_le|]; vm_compute; reflexivity.
  - vm_compute. reflexivity.
  - constructor.
  - vm_compute. reflexivity.
Defined.

(* ================================================================== *)
(** * Further properties *)

(** ** Calls while batching *)

Lemma request_envelopes_ext (w1 w2 : World) (i : nat)
  (reqs : list (value * value)) :
  urandom w1 = urandom w2 ->
  request_envelopes w1 i reqs = request_envelopes w2 i reqs.
Proof.
  intros Hsame. revert i.
  induction reqs as [|r reqs IH]; intros i; cbn [request_envelopes];
    [reflexivity|].
  rewrite IH. unfold id_at. now rewrite Hsame.
Qed.

(** Calls queued by a batching session, with the world they leave. *)
Lemma call_all_queued (reqs : list (value * value)) (w : World) :
  _batch (self w) = true ->
  call_all reqs w
  = (Returns (repeat VNone (List.length reqs)), queued reqs w).
Proof.
  unfold call_all. revert w.
  induction reqs as [|r reqs IH]; intros w Hb.
  - cbn. unfold ret, queued. cbn [request_envelopes List.length].
    rewrite app_nil_r, Nat.add_0_r.
    destruct w as [[h p s pl b] ur dr so hp]. reflexivity.
  - cbn [map_M]. unfold bind at 1.
    rewrite jsonrpc_call_batching by exact Hb.
    unfold bind at 1. rewrite IH by exact Hb.
    cbn [ret repeat List.length]. f_equal.
    unfold queued. cbn [self set_self set_pipeline _pipeline host port
                        _socket _batch draw urandom drawn stdout heap
                        request_envelopes List.length].
    rewrite <- app_assoc. cbn [app].
    rewrite (request_envelopes_ext _ w) by reflexivity.
    now rewrite Nat.add_succ_r.
Qed.

(** X1: while the session is batching, calls send nothing and read nothing:
    each returns [None], and the envelopes join the pending list in the
    order of the calls, one draw of entropy each. *)
Theorem batching_calls_queue (reqs : list (value * value)) (w : World) :
  _batch (self w) = true ->
  exists w',
    call_all reqs w = (Returns (repeat VNone (List.length reqs)), w')
    /\ _pipeline (self w')
       = _pipeline (self w) ++ request_envelopes w (drawn w) reqs
    /\ wire w' = wire w
    /\ inbox w' = inbox w
    /\ _batch (self w') = true
    /\ drawn w' = (drawn w + List.length reqs)%nat.
Proof.
  intros Hb. exists (queued reqs w).
  split; [exact (call_all_queued reqs w Hb)|].
  repeat split. exact Hb.
Qed.

Lemma batching_calls_queue_witness :
  exists w',
    call_all [(VStr (u "power_on"), VDict [(u "target", star)]);
              (VStr (u "power_off"), VDict [(u "target", star)])]
      (snd (batch_enter (fresh_client [])))
    = (Returns [VNone; VNone], w')
    /\ _pipeline (self w')
       = [envelope (VStr (u "power_on")) (VDict [(u "target", star)]) id0;
          envelope (VStr (u "power_off")) (VDict [(u "target", star)]) id1]
    /\ wire w' = []
    /\ inbox w' = []
    /\ _batch (self w') = true
    /\ drawn w' = 2%nat.
Proof.
  exact (batching_calls_queue
           [(VStr (u "power_on"), VDict [(u "target", star)]);
            (VStr (u "power_off"), VDict [(u "target", star)])]
           (snd (batch_enter (fresh_client []))) eq_refl).
Defined.

(** ** A whole batch *)

Lemma batch_enter_entered (w : World) :
  batch_enter w = (Returns (List.length (heap w)), entered w).
Proof. reflexivity. Qed.

(** The flush of a batch whose reply arrives in one read, with the world
    it leaves. *)
Lemma batch_exit_flushed (response : nat) (w : World) (data : bytes)
  (text : pystr) (rest : list net_event) :
  inbox w = Recv data :: rest ->
  received data text ->
  batch_exit response w = (Returns tt, flushed response rest text w).
Proof.
  intros Hin Hrx.
  unfold batch_exit, bind, modify_self, get_self.
  cbn [fst snd self set_self set_batch _pipeline].
  rewrite (execute_payload_recv _ _ data rest text) by (assumption || exact Hin).
  unfold flushed.
  destruct (response_of text) eqn:Hr; reflexivity.
Qed.

(** X2: a [with] block of calls, whatever the mode and the pending list
    it starts from, sends exactly one payload when it ends: the array of
    what was pending followed by the block's envelopes in the order of the
    calls (the empty array for an empty block).  Every call of the block
    returned [None]; afterwards the session is in single mode with nothing
    pending, and the block's response list holds the items of the reply. *)
Theorem batch_sends_one_array (reqs : list (value * value)) (w : World)
  (data : bytes) (text : pystr) (rest : list net_event) :
  inbox w = Recv data :: rest ->
  received data text ->
  exists w',
    batch (fun _ => call_all reqs) w
    = (Returns (repeat VNone (List.length reqs)), w')
    /\ wire w'
       = wire w
         ++ [VList (_pipeline (self w) ++ request_envelopes w (drawn w) reqs)]
    /\ inbox w' = rest
    /\ _batch (self w') = false
    /\ _pipeline (self w') = []
    /\ nth_error (heap w') (List.length (heap w))
       = Some (reply_items (response_of text)).
Proof.
  intros Hin Hrx.
  unfold batch. unfold bind at 1. rewrite batch_enter_entered.
  unfold bind at 1. rewrite call_all_queued by reflexivity.
  unfold bind at 1.
  erewrite batch_exit_flushed; [|exact Hin|exact Hrx].
  eexists. split; [reflexivity|].
  unfold flushed, exchanged, queued, entered, wire, inbox.
  cbn [self set_self set_pipeline set_batch set_socket _pipeline _batch
       _socket host port sent incoming urandom drawn stdout heap].
  rewrite (request_envelopes_ext _ w) by reflexivity.
  repeat split.
  rewrite heap_update_nth, nth_error_app2, Nat.sub_diag by lia.
  reflexivity.
Qed.

Lemma batch_sends_one_array_witness :
  exists w',
    batch (fun _ => call_all
                      [(VStr (u "power_on"), VDict [(u "target", star)]);
                       (VStr (u "power_off"), VDict [(u "target", star)])])
      (fresh_client [Recv reversed_reply])
    = (Returns [VNone; VNone], w')
    /\ wire w'
       = [VList [envelope (VStr (u "power_on")) (VDict [(u "target", star)]) id0;
                 envelope (VStr (u "power_off")) (VDict [(u "target", star)])
                   id1]]
    /\ inbox w' = []
    /\ _batch (self w') = false
    /\ _pipeline (self w') = []
    /\ nth_error (heap w') 0 = Some (reply_items (response_of reversed_reply)).
Proof.
  apply (batch_sends_one_array
           [(VStr (u "power_on"), VDict [(u "target", star)]);
            (VStr (u "power_off"), VDict [(u "target", star)])]
           (fresh_client [Recv reversed_reply])
           reversed_reply reversed_reply []).
  - reflexivity.
  - split; [apply Nat.leb_le|]; vm_compute; reflexivity.
Defined.

(** ** Operations that keep the mode *)

Lemma keeps_mode_ret {A} (a : A) : keeps_mode (ret a).
Proof. intros w. reflexivity. Qed.

Lemma keeps_mode_lift {A} (r : result A) : keeps_mode (lift r).
Proof. intros w. destruct r; reflexivity. Qed.

Lemma keeps_mode_bind {A B} (m : M A) (k : A -> M B) :
  keeps_mode m -> (forall a, keeps_mode (k a)) -> keeps_mode (bind m k).
Proof.
  intros Hm Hk w. unfold bind. specialize (Hm w).
  destruct (m w) as [[a| |] w1]; cbn [snd] in *; try exact Hm.
  rewrite Hk. exact Hm.
Qed.

Lemma keeps_mode_jsonrpc_call (method params : value) :
  keeps_mode (_jsonrpc_call method params).
Proof.
  intros w. destruct (_batch (self w)) eqn:Hb.
  - rewrite jsonrpc_call_batching by exact Hb. exact Hb.
  - rewrite jsonrpc_call_single by exact Hb.
    destruct (execute_payload_keeps_session
                (envelope method params (id_at w (drawn w))) (draw w))
      as [-> _].
    exact Hb.
Qed.

Lemma keeps_mode_for_each {A} (l : list A) (body : A -> M unit) :
  (forall x, keeps_mode (body x)) -> keeps_mode (for_each l body).
Proof.
  intros Hbody. induction l as [|x l IH]; cbn [for_each].
  - apply keeps_mode_ret.
  - apply keeps_mode_bind; [apply Hbody | intros _; exact IH].
Qed.

Lemma keeps_mode_adjust_bulb (adjustment bulb : value) :
  keeps_mode (adjust_bulb adjustment bulb).
Proof.
  unfold adjust_bulb.
  apply keeps_mode_bind; [apply keeps_mode_lift | intros hsbk].
  apply keeps_mode_bind; [apply keeps_mode_lift | intros [[[h s] b] k]].
  apply keeps_mode_bind; [apply keeps_mode_lift | intros b'].
  apply keeps_mode_bind; [apply keeps_mode_lift | intros label].
  apply keeps_mode_bind; [apply keeps_mode_jsonrpc_call | intros _].
  apply keeps_mode_ret.
Qed.

Lemma keeps_mode_adjust_brightness (target adjustment : value) :
  keeps_mode (adjust_brightness target adjustment).
Proof.
  unfold adjust_brightness, get_light_state.
  apply keeps_mode_bind; [apply keeps_mode_jsonrpc_call | intros reply].
  apply keeps_mode_bind; [apply keeps_mode_lift | intros bulbs].
  apply keeps_mode_bind; [apply keeps_mode_lift | intros items].
  apply keeps_mode_bind; [|intros _; apply keeps_mode_ret].
  apply keeps_mode_for_each. intros bulb. apply keeps_mode_adjust_bulb.
Qed.

(** ** A batch whose block raises, a batch inside a batch *)

(** X3: when the block of a [with] raises, nothing of [batch] runs after
    its [yield]: the exception goes to the caller with the world the block
    left, nothing is flushed, and, when the block itself did not touch the
    mode, the session stays in batching mode, so that every later call is
    queued behind the block's requests and returns [None] without anything
    being sent. *)
Theorem batch_block_raises {A} (body : nat -> M A) (w w1 : World) (e : exn) :
  (forall response, keeps_mode (body response)) ->
  body (List.length (heap w)) (entered w) = (Raises e, w1) ->
  batch body w = (Raises e, w1)
  /\ _batch (self w1) = true
  /\ forall method params,
       fst (_jsonrpc_call method params w1) = Returns VNone
       /\ wire (snd (_jsonrpc_call method params w1)) = wire w1
       /\ _pipeline (self (snd (_jsonrpc_call method params w1)))
          = _pipeline (self w1)
            ++ [envelope method params (id_at w1 (drawn w1))].
Proof.
  intros Hkeeps Hbody.
  assert (Hmode : _batch (self w1) = true).
  { pose proof (Hkeeps (List.length (heap w)) (entered w)) as H.
    rewrite Hbody in H. exact H. }
  split; [|split; [exact Hmode|]].
  - unfold batch. unfold bind at 1. rewrite batch_enter_entered.
    unfold bind at 1. now rewrite Hbody.
  - intros method params.
    rewrite jsonrpc_call_batching by exact Hmode. repeat split.
Qed.

(** X4: a [with] block that ends normally always leaves the session in
    single mode with nothing pending, whatever the mode it started in.  So
    a batch opened inside another batch closes both: what the outer block
    calls next is sent at once. *)
Theorem batch_returns_single {A} (body : nat -> M A) (w w' : World) (x : A) :
  batch body w = (Returns x, w') ->
  _batch (self w') = false
  /\ _pipeline (self w') = []
  /\ forall method params,
       send_accepted w' ->
       wire (snd (_jsonrpc_call method params w'))
       = wire w' ++ [envelope method params (id_at w' (drawn w'))].
Proof.
  unfold batch. unfold bind at 1. rewrite batch_enter_entered.
  unfold bind at 1.
  destruct (body (List.length (heap w)) (entered w)) as [[y| |] w1];
    try discriminate.
  unfold bind at 1.
  destruct (batch_exit (List.length (heap w)) w1) as [[[]| |] w2] eqn:Hexit;
    try discriminate.
  intros [= <- <-].
  destruct (batch_exit_returns_reset _ _ _ Hexit) as [Hmode Hpending].
  split; [exact Hmode | split; [exact Hpending|]].
  intros method params Hsend.
  rewrite jsonrpc_call_single by exact Hmode.
  now rewrite execute_payload_wire.
Qed.

(** X5: [adjust_brightness] cannot be used while batching: the read it
    starts with is queued and answers [None], so the subscription fails
    with [TypeError]; nothing is sent, and the read stays in the pending
    list. *)
Theorem adjust_brightness_while_batching (target adjustment : value)
  (w : World) :
  _batch (self w) = true ->
  exists w',
    adjust_brightness target adjustment w = (Raises TypeError, w')
    /\ wire w' = wire w
    /\ inbox w' = inbox w
    /\ _batch (self w') = true
    /\ _pipeline (self w')
       = _pipeline (self w)
         ++ [envelope (VStr (u "get_light_state")) (VList [target])
               (id_at w (drawn w))].
Proof.
  intros Hb. unfold adjust_brightness, get_light_state.
  unfold bind at 1. rewrite jsonrpc_call_batching by exact Hb.
  unfold bind at 1. cbn [getitem lift raise].
  eexists. split; [reflexivity|]. repeat split. exact Hb.
Qed.

Lemma adjust_brightness_while_batching_witness :
  exists w',
    adjust_brightness star (VFloat 0.2) (entered (fresh_client []))
    = (Raises TypeError, w')
    /\ wire w' = []
    /\ inbox w' = []
    /\ _batch (self w') = true
    /\ _pipeline (self w')
       = [envelope (VStr (u "get_light_state")) (VList [star]) id0].
Proof.
  exact (adjust_brightness_while_batching star (VFloat 0.2)
           (entered (fresh_client [])) eq_refl).
Defined.

Lemma batch_block_raises_witness :
  let w := fresh_client [] in
  let w1 := snd (adjust_brightness star (VFloat 0.2) (entered w)) in
  batch (fun _ => adjust_brightness star (VFloat 0.2)) w
  = (Raises TypeError, w1)
  /\ _batch (self w1) = true
  /\ forall method params,
       fst (_jsonrpc_call method params w1) = Returns VNone
       /\ wire (snd (_jsonrpc_call method params w1)) = wire w1
       /\ _pipeline (self (snd (_jsonrpc_call method params w1)))
          = _pipeline (self w1)
            ++ [envelope method params (id_at w1 (drawn w1))].
Proof.
  intros w w1.
  apply (batch_block_raises (fun _ => adjust_brightness star (VFloat 0.2))
           w w1 TypeError).
  - intros _. apply keeps_mode_adjust_brightness.
  - reflexivity.
Defined.

Lemma batch_returns_single_witness :
  let outer := entered (fresh_client [Recv (u "[]")]) in
  let w' := snd (batch (fun _ => power_on star) outer) in
  _batch (self outer) = true
  /\ _batch (self w') = false
  /\ _pipeline (self w') = []
  /\ forall method params,
       send_accepted w' ->
       wire (snd (_jsonrpc_call method params w'))
       = wire w' ++ [envelope method params (id_at w' (drawn w'))].
Proof.
  intros outer w'. split; [reflexivity|].
  apply (batch_returns_single (fun _ => power_on star) outer w' VNone).
  vm_compute. reflexivity.
Defined.

(** ** The waveform presets *)

(** X6: each waveform preset issues one [set_waveform] request whose
    params are [target, NAME, h, s, b, k, period, cycles, skew_ratio,
    transient], the period before the cycles; [saw] and [half_sine] fix the
    skew ratio to 0.5, [sine], [triangle] and [square] take it from [peak]
    or [duty_cycle] with 0.5 as default, and [transient] is [True] unless
    given. *)
Theorem presets_params_shape
  (target h s b k period cycles : value) (skew transient : option value)
  (w : World) :
  send_accepted w ->
  issues (saw target h s b k period cycles transient) "set_waveform"
    (VList [target; VStr (u "SAW"); h; s; b; k; period; cycles; VFloat 0.5;
            default (VBool true) transient]) w
  /\ issues (sine target h s b k period cycles skew transient) "set_waveform"
       (VList [target; VStr (u "SINE"); h; s; b; k; period; cycles;
               default (VFloat 0.5) skew; default (VBool true) transient]) w
  /\ issues (half_sine target h s b k period cycles transient) "set_waveform"
       (VList [target; VStr (u "HALF_SINE"); h; s; b; k; period; cycles;
               VFloat 0.5; default (VBool true) transient]) w
  /\ issues (triangle target h s b k period cycles skew transient)
       "set_waveform"
       (VList [target; VStr (u "TRIANGLE"); h; s; b; k; period; cycles;
               default (VFloat 0.5) skew; default (VBool true) transient]) w
  /\ issues (square target h s b k period cycles skew transient)
       "set_waveform"
       (VList [target; VStr (u "SQUARE"); h; s; b; k; period; cycles;
               default (VFloat 0.5) skew; default (VBool true) transient]) w.
Proof.
  intros Hsend.
  repeat split; apply jsonrpc_call_issues; exact Hsend.
Qed.

Lemma presets_params_shape_witness :
  wire (snd (square star (VInt 0) (VInt 1) (VInt 1) (VInt 3500) (VInt 1000)
               (VInt 10) None None (fresh_client [])))
  = [envelope (VStr (u "set_waveform"))
       (VList [star; VStr (u "SQUARE"); VInt 0; VInt 1; VInt 1; VInt 3500;
               VInt 1000; VInt 10; VFloat 0.5; VBool true]) id0].
Proof.
  assert (Hsend : send_accepted (fresh_client [])) by (intros H; discriminate H).
  exact (proj1 (proj2 (proj2 (proj2 (proj2
           (presets_params_shape star (VInt 0) (VInt 1) (VInt 1) (VInt 3500)
              (VInt 1000) (VInt 10) None None (fresh_client []) Hsend)))))).
Defined.

(** ** Octets that are not UTF-8 *)

(** X8: when the octets read are not UTF-8, the exchange raises
    [UnicodeDecodeError]: the payload has been sent, the octets are
    consumed, nothing is printed and nothing is returned. *)
Theorem execute_payload_undecodable (payload : value) (w : World)
  (data : bytes) (rest : list net_event) :
  inbox w = Recv data :: rest ->
  utf8_decode (firstn RECV_SIZE data) = None ->
  exists w',
    _execute_payload payload w = (Raises UnicodeDecodeError, w')
    /\ wire w' = wire w ++ [payload]
    /\ inbox w' = leftover data rest
    /\ stdout w' = stdout w.
Proof.
  intros Hin Hdec. unfold _execute_payload, bind.
  rewrite socket_send_ok by (rewrite Hin; discriminate).
  unfold socket_recv. cbn [self set_self _socket set_socket incoming sent].
  rewrite Hin, Hdec.
  eexists. split; [reflexivity|]. repeat split.
Qed.

Lemma execute_payload_undecodable_witness :
  exists w',
    _execute_payload VNone (fresh_client [Recv [123; 34; 226; 130]%N])
    = (Raises UnicodeDecodeError, w')
    /\ wire w' = [VNone]
    /\ inbox w' = []
    /\ stdout w' = [].
Proof.
  exact (execute_payload_undecodable VNone
           (fresh_client [Recv [123; 34; 226; 130]%N])
           [123; 34; 226; 130]%N [] eq_refl eq_refl).
Defined.

(** ** A reply longer than one read *)

(** X9: a reply longer than 8192 octets is cut.  The exchange that reads it
    gets its first 8192 octets only; the rest stays in the socket and is
    what the next exchange reads, in place of its own reply. *)
Theorem long_reply_is_cut (p1 p2 : value) (w : World) (data : bytes)
  (rest : list net_event) (text1 text2 : pystr) :
  inbox w = Recv data :: rest ->
  (RECV_SIZE < List.length data <= 2 * RECV_SIZE)%nat ->
  utf8_decode (firstn RECV_SIZE data) = Some text1 ->
  utf8_decode (skipn RECV_SIZE data) = Some text2 ->
  exists w',
    exchange_twice p1 p2 w
    = (Returns (response_of text1, response_of text2), w')
    /\ wire w' = wire w ++ [p1; p2]
    /\ inbox w' = rest.
Proof.
  intros Hin [Hlong Hfits] Hdec1 Hdec2.
  unfold exchange_twice. unfold bind at 1.
  rewrite (execute_payload_read p1 w data rest text1 Hin Hdec1).
  assert (Hleft : leftover data rest = Recv (skipn RECV_SIZE data) :: rest).
  { unfold leftover. destruct (skipn RECV_SIZE data) eqn:Hskip; [|reflexivity].
    apply (f_equal (@List.length N)) in Hskip.
    rewrite length_skipn in Hskip. cbn [List.length] in Hskip. lia. }
  rewrite Hleft. unfold bind at 1.
  rewrite (execute_payload_recv p2 _ (skipn RECV_SIZE data) rest text2);
    [| reflexivity | split; [rewrite length_skipn; lia | exact Hdec2]].
  eexists. split; [reflexivity|].
  unfold exchanged, wire, inbox.
  cbn [self set_self set_socket _socket sent incoming].
  rewrite <- app_assoc. split; reflexivity.
Qed.

Lemma long_reply_is_cut_witness :
  exists w',
    exchange_twice VNone VNone (fresh_client [Recv long_reply])
    = (Returns (VStr (firstn RECV_SIZE long_reply), VStr (u "2]")), w')
    /\ wire w' = [VNone; VNone]
    /\ inbox w' = [].
Proof.
  assert (Hlen : (RECV_SIZE < List.length long_reply <= 2 * RECV_SIZE)%nat).
  { split; [apply Nat.ltb_lt | apply Nat.leb_le]; vm_compute; reflexivity. }
  assert (H1 : utf8_decode (firstn RECV_SIZE long_reply)
               = Some (firstn RECV_SIZE long_reply))
    by (vm_compute; reflexivity).
  assert (H2 : utf8_decode (skipn RECV_SIZE long_reply) = Some (u "2]"))
    by (vm_compute; reflexivity).
  assert (R1 : response_of (firstn RECV_SIZE long_reply)
               = VStr (firstn RECV_SIZE long_reply))
    by (vm_compute; reflexivity).
  assert (R2 : response_of (u "2]") = VStr (u "2]"))
    by (vm_compute; reflexivity).
  rewrite <- R1, <- R2.
  exact (long_reply_is_cut VNone VNone (fresh_client [Recv long_reply])
           long_reply [] _ _ eq_refl Hlen H1 H2).
Defined.

(** ** The brightness that is written *)

(** X10: whenever the new brightness [max(min(b + adjustment, 1.0), 0.0)]
    is defined, it is neither greater than 1.0 nor less than 0.0, as Python
    compares numbers (a NaN, which compares false with everything, passes
    through). *)
Theorem clamp_brightness_range (b adjustment r : value) :
  clamp_brightness b adjustment = Ok r ->
  float_lt 1.0 r = Ok false /\ float_gt 0.0 r = Ok false.
Proof.
  unfold clamp_brightness, py_min, py_max.
  destruct (py_add b adjustment) as [x|e]; [|discriminate].
  destruct (float_lt 1.0 x) as [[|]|e1] eqn:Hhigh; [| |discriminate].
  - (* above 1.0: cut to 1.0 *)
    change (float_gt 0.0 (VFloat 1.0)) with (@Ok bool false).
    intros [= <-]. split; reflexivity.
  - destruct (float_gt 0.0 x) as [[|]|e2] eqn:Hlow; [| |discriminate].
    + (* below 0.0: cut to 0.0 *)
      intros [= <-]. split; reflexivity.
    + intros [= <-]. split; assumption.
Qed.

Lemma clamp_brightness_range_witness :
  float_lt 1.0 (VFloat 1.0) = Ok false /\ float_gt 0.0 (VFloat 1.0) = Ok false.
Proof.
  apply (clamp_brightness_range (VFloat 0.9) (VFloat 0.2) (VFloat 1.0)).
  vm_compute. reflexivity.
Defined.

(** ** No device to adjust *)

(** X11: when the [result] of the reply is an empty iterable, be it a list,
    a string or a mapping, [adjust_brightness] sends the read and nothing
    else, and returns [None]. *)
Theorem adjust_brightness_no_device (target adjustment : value) (w : World)
  (data : bytes) (text : pystr) (bulbs : value) (rest : list net_event) :
  _batch (self w) = false ->
  inbox w = Recv data :: rest ->
  received data text ->
  getitem (response_of text) (u "result") = Ok bulbs ->
  py_iter bulbs = Ok [] ->
  exists w',
    adjust_brightness target adjustment w = (Returns VNone, w')
    /\ wire w'
       = wire w ++ [envelope (VStr (u "get_light_state")) (VList [target])
                      (id_at w (drawn w))]
    /\ inbox w' = rest.
Proof.
  intros Hb Hin Hrx Hres Hit.
  unfold adjust_brightness, get_light_state. unfold bind at 1.
  rewrite (jsonrpc_call_recv _ _ w data rest text Hb Hin Hrx).
  unfold bind at 1. rewrite Hres. cbn [lift ret].
  unfold bind at 1. rewrite Hit. cbn [lift ret for_each].
  unfold bind at 1. cbn [ret].
  eexists. split; [reflexivity|]. split; [apply wire_exchanged | reflexivity].
Qed.

Lemma adjust_brightness_no_device_witness :
  let data := js "{'id': '00000000-0000-4000-8000-000000000000', 'result': ''}" in
  exists w',
    adjust_brightness star (VFloat 0.2) (fresh_client [Recv data])
    = (Returns VNone, w')
    /\ wire w'
       = wire (fresh_client [Recv data])
         ++ [envelope (VStr (u "get_light_state")) (VList [star]) id0]
    /\ inbox w' = [].
Proof.
  intros data.
  apply (adjust_brightness_no_device star (VFloat 0.2)
           (fresh_client [Recv data]) data data (VStr []) []).
  - reflexivity.
  - reflexivity.
  - split; [apply Nat.leb_le|]; vm_compute; reflexivity.
  - vm_compute. reflexivity.
  - reflexivity.
Defined.

(** ** The response lists of batches *)

Lemma heap_update_other (a a' : nat) (f : list value -> list value)
  (h : list (list value)) :
  a <> a' -> nth_error (heap_update a f h) a' = nth_error h a'.
Proof.
  revert a a'. induction h as [|l h IH]; intros [|a] [|a'] Hne; cbn;
    try reflexivity; try congruence.
  apply IH. congruence.
Qed.

Lemma heap_update_length (a : nat) (f : list value -> list value)
  (h : list (list value)) :
  List.length (heap_update a f h) = List.length h.
Proof.
  revert a. induction h as [|l h IH]; intros [|a]; cbn; auto.
Qed.

Lemma execute_payload_keeps_heap (payload : value) (w : World) :
  heap (snd (_execute_payload payload w)) = heap w.
Proof.
  unfold _execute_payload, bind, socket_send, socket_recv.
  destruct (incoming (_socket (self w))) as [|[| |data] rest] eqn:Hin;
    cbn; rewrite ?Hin; cbn; auto.
  destruct (utf8_decode (firstn RECV_SIZE data)) as [text|]; cbn; auto.
  destruct (json_loads text); cbn; auto.
Qed.

(** X12: the flush of a batch, however it ends, creates no list and
    changes no response list but its own: the lists handed out to other
    [with] blocks keep their contents. *)
Theorem batch_exit_other_lists (response other : nat) (w : World) :
  other <> response ->
  nth_error (heap (snd (batch_exit response w))) other
  = nth_error (heap w) other
  /\ List.length (heap (snd (batch_exit response w))) = List.length (heap w).
Proof.
  intros Hne.
  unfold batch_exit, bind, modify_self, get_self.
  cbn [fst snd self set_self set_batch _pipeline].
  pose proof (execute_payload_keeps_heap
                (VList (_pipeline (self w)))
                (set_self (set_batch false (self w)) w)) as Hheap.
  destruct (_execute_payload _ _) as [[v| |] w1]; cbn [snd heap] in *;
    try (rewrite Hheap; split; reflexivity).
  destruct v; cbn [snd heap list_extend set_self];
    rewrite heap_update_other, heap_update_length, Hheap by congruence;
    split; reflexivity.
Qed.

Lemma batch_exit_other_lists_witness :
  let w := entered (entered (fresh_client [Recv (u "[1, 2]")])) in
  nth_error (heap (snd (batch_exit 1 w))) 0 = nth_error (heap w) 0
  /\ List.length (heap (snd (batch_exit 1 w))) = List.length (heap w).
Proof.
  intros w. apply (batch_exit_other_lists 1 0 w). discriminate.
Defined.
